(** * Planetary exploration simulation: planets, rovers and fleets

    A shallow embedding of [src/classes/planet.py], [src/classes/rover.py]
    and the [Fleet] class of [Entrega_grupo1/src/sim.py], with the
    properties of the grid, of the rover state machine and of the fleet
    counters proved over it.

    Conventions of the embedding.
    - Python integers are mathematical integers ([Z]); [%] and [//] are
      Python's flooring operators, which [Z.modulo] and [Z.div] are for
      every sign of the operands.  Probabilities are IEEE binary64 floats.
    - The entries of a numpy coordinate array are int64: integers of
      [-2^63, 2^63), which is the dtype [np.array] gives a pair of Python
      integers of that range.  The sum of two such arrays wraps around at
      these bounds, silently ([int64_wrap]).
    - A raised exception is the [Raise] branch of [result]; a method that
      mutates [self] returns the new object.  What a call had already
      written when it raises is not kept: on a well-formed planet, with
      the four directions, nothing raises.
    - The numpy grid of shape [(width, height)] is a list of rows indexed
      by [x], each row a list indexed by [y].
    - The planet every rover of a fleet points to is one shared object: it
      is kept once, in the fleet, and handed to the rover operations. *)

From Stdlib Require Import ZArith Lia Floats.
From stdpp Require Import base tactics option list strings gmap.

Local Open Scope Z_scope.

(** ** Exceptions *)

Inductive exn :=
  | ZeroDivisionError
  | IndexError
  | KeyError (key : string)
  | ValueError (msg : string).

Inductive result (A : Type) :=
  | Ok (a : A)
  | Raise (e : exn).
Arguments Ok {A} a.
Arguments Raise {A} e.

#[global] Instance result_ret : MRet result := @Ok.
#[global] Instance result_bind : MBind result :=
  λ A B f m, match m with Ok a => f a | Raise e => Raise e end.

(** [a % b] on Python integers. *)
Definition py_mod (a b : Z) : result Z :=
  if decide (b = 0) then Raise ZeroDivisionError else Ok (a `mod` b).

(** [a % b] between the entries of two numpy integer arrays: flooring as
    well, but a zero divisor gives 0 (and a warning) instead of raising. *)
Definition np_mod (a b : Z) : Z :=
  if decide (b = 0) then 0 else a `mod` b.

(** The int64 that numpy keeps of an integer result: the one of
    [-2^63, 2^63) that differs from it by a multiple of 2^64. *)
Definition int64_wrap (z : Z) : Z := (z + 2 ^ 63) `mod` 2 ^ 64 - 2 ^ 63.

(** [a + b] between the entries of two int64 arrays. *)
Definition np_add (a b : Z) : Z := int64_wrap (a + b).

(** An index into an axis of length [n]: numpy counts a negative index
    from the end and raises outside [-n, n). *)
Definition np_index (n : nat) (i : Z) : result nat :=
  if decide (0 ≤ i < Z.of_nat n) then Ok (Z.to_nat i)
  else if decide (- Z.of_nat n ≤ i < 0) then Ok (Z.to_nat (Z.of_nat n + i))
  else Raise IndexError.

(** ** planet.py *)

Inductive CellType := EMPTY | WATER | MINERAL | OBSTACLE | ACCIDENT.

#[global] Instance CellType_eq_dec : EqDecision CellType.
Proof. solve_decision. Defined.

Definition CellType_value (c : CellType) : Z :=
  match c with
  | EMPTY => 0 | WATER => 1 | MINERAL => 2 | OBSTACLE => 3 | ACCIDENT => 4
  end.

(** [list(CellType)]: the members in definition order. *)
Definition CellType_members : list CellType :=
  [EMPTY; WATER; MINERAL; OBSTACLE; ACCIDENT].

Record Planet := mkPlanet {
  name : string;
  width : Z;
  height : Z;
  grid : list (list CellType)
}.

Definition set_grid (p : Planet) (g : list (list CellType)) : Planet :=
  {| name := name p; width := width p; height := height p; grid := g |}.

Definition lookup_or_IndexError {A} (o : option A) : result A :=
  match o with Some a => Ok a | None => Raise IndexError end.

(** [g[x, y]] *)
Definition grid_get (g : list (list CellType)) (x y : Z) : result CellType :=
  i ← np_index (length g) x;
  row ← lookup_or_IndexError (g !! i);
  j ← np_index (length row) y;
  lookup_or_IndexError (row !! j).

(** [g[x, y] = v] *)
Definition grid_set (g : list (list CellType)) (x y : Z) (v : CellType)
  : result (list (list CellType)) :=
  i ← np_index (length g) x;
  row ← lookup_or_IndexError (g !! i);
  j ← np_index (length row) y;
  Ok (<[i := <[j := v]> row]> g).

(** [Planet.get_cell].  (A position read from a numpy array divides by a
    zero width without raising, and the index is then refused; either way
    the call fails on a grid without cells.) *)
Definition get_cell (p : Planet) (pos : Z * Z) : result CellType :=
  x ← py_mod pos.1 (width p);
  y ← py_mod pos.2 (height p);
  grid_get (grid p) x y.

(** [Planet.empty_cell]: the new planet and the boolean returned. *)
Definition empty_cell (p : Planet) (pos : Z * Z) : result (Planet * bool) :=
  x ← py_mod pos.1 (width p);
  y ← py_mod pos.2 (height p);
  cell ← grid_get (grid p) x y;
  match cell with
  | WATER | MINERAL =>
      g ← grid_set (grid p) x y EMPTY;
      Ok (set_grid p g, true)
  | _ => Ok (p, false)
  end.

(** What [Planet.__init__] leaves behind when it returns: a grid of shape
    [(width, height)]; the data model asks for both to be at least 1. *)
Definition wf_planet (p : Planet) : Prop :=
  0 < width p ∧ 0 < height p ∧
  Z.of_nat (length (grid p)) = width p ∧
  Forall (λ row, Z.of_nat (length row) = height p) (grid p).

Definition is_resource (c : CellType) : bool :=
  match c with WATER | MINERAL => true | _ => false end.

(** The wrapped coordinates of a position. *)
Definition wrap (p : Planet) (pos : Z * Z) : Z * Z :=
  (pos.1 `mod` width p, pos.2 `mod` height p).

(** [Planet.__init__].  numpy's global generator is a state of type [rng]
    threaded through the constructor.  [np.random.seed] takes an integer
    of [0, 2^32 - 1] and raises [ValueError] on any other; the state an
    accepted seed gives ([seeded]) and [np.random.choice] belong to numpy
    and are parameters.  The sampler receives the population, the shape
    and the weights, and may itself raise. *)
Section Construction.
Context {rng : Type}.
Variable seeded : Z → rng.
Variable np_random_choice :
  list CellType → Z * Z → list float → rng →
  result (list (list CellType) * rng).

Definition np_random_seed (seed : Z) : result rng :=
  if decide (0 ≤ seed ≤ 2 ^ 32 - 1) then Ok (seeded seed)
  else Raise (ValueError "Seed must be between 0 and 2**32 - 1").

Definition Planet_init (name : string) (width height : Z)
    (water_prob mineral_prob obstacle_prob accident_prob : float)
    (seed : option Z) (g : rng) : result (Planet * rng) :=
  g ← match seed with Some s => np_random_seed s | None => Ok g end;
  let total_prob :=
    (water_prob + mineral_prob + obstacle_prob + accident_prob)%float in
  if (1.0 <? total_prob)%float
  then Raise (ValueError "Total probability cannot exceed 1.0")
  else
    '(cells, g) ← np_random_choice CellType_members (width, height)
                    [ (1.0 - total_prob)%float;
                      water_prob; mineral_prob; obstacle_prob;
                      accident_prob ] g;
    Ok (mkPlanet name width height cells, g).
End Construction.


(** ** rover.py *)

Inductive RoverState := EXPLORING | GATHERING | LOST.

#[global] Instance RoverState_eq_dec : EqDecision RoverState.
Proof. solve_decision. Defined.

Definition RoverState_value (s : RoverState) : Z :=
  match s with EXPLORING => 1 | GATHERING => 2 | LOST => 3 end.

(** The [planet] attribute is the shared planet (see the conventions). *)
Record Rover := mkRover {
  rover_id : Z;
  location : Z * Z;
  state : RoverState;
  load : gmap string Z;
  findings_locations : gmap string (list (Z * Z))
}.

Definition set_location (r : Rover) (l : Z * Z) : Rover :=
  mkRover (rover_id r) l (state r) (load r) (findings_locations r).
Definition set_state (r : Rover) (s : RoverState) : Rover :=
  mkRover (rover_id r) (location r) s (load r) (findings_locations r).
Definition set_load (r : Rover) (m : gmap string Z) : Rover :=
  mkRover (rover_id r) (location r) (state r) m (findings_locations r).
Definition set_findings_locations (r : Rover)
    (m : gmap string (list (Z * Z))) : Rover :=
  mkRover (rover_id r) (location r) (state r) (load r) m.

(** [d[k]] on a dict with string keys. *)
Definition dict_get {V} (d : gmap string V) (k : string) : result V :=
  match d !! k with Some v => Ok v | None => Raise (KeyError k) end.

(** [Rover.__init__].  [location] is the int64 array that [np.array]
    makes of the two coordinates. *)
Definition Rover_init (rover_id width height : Z) : Rover :=
  {| rover_id := rover_id;
     location := (width, height);
     state := EXPLORING;
     load := {[ "WATER" := 0; "MINERAL" := 0 ]};
     findings_locations := {[ "WATER" := []; "MINERAL" := [] ]} |}.

Definition movements : gmap string (Z * Z) :=
  {[ "N" := (0, 1); "S" := (0, -1); "E" := (1, 0); "W" := (-1, 0) ]}.

(** The transition rule of [Rover._update_state]. *)
Definition state_of_cell (c : CellType) : RoverState :=
  match c with
  | WATER | MINERAL => GATHERING
  | ACCIDENT => LOST
  | _ => EXPLORING
  end.

(** [Rover._update_state] *)
Definition _update_state (p : Planet) (r : Rover) : result Rover :=
  cell ← get_cell p (location r);
  Ok (set_state r (state_of_cell cell)).

(** [Rover.move]: the rover after the call and the boolean returned.  The
    unit vector is added to the location as an int64 array, and the
    remainder taken of that sum. *)
Definition move (p : Planet) (r : Rover) (direction : string)
  : result (Rover * bool) :=
  '(dx, dy) ← dict_get movements direction;
  let new_location :=
    (np_mod (np_add (location r).1 dx) (width p),
     np_mod (np_add (location r).2 dy) (height p)) in
  cell ← get_cell p new_location;
  if decide (cell = OBSTACLE) then Ok (r, false)
  else
    r ← _update_state p (set_location r new_location);
    Ok (r, true).

(** One branch of [Rover.gather]: count the unit, clear the cell, log the
    position. *)
Definition gather_kind (key : string) (p : Planet) (r : Rover)
  : result (Planet * Rover) :=
  n ← dict_get (load r) key;
  let r := set_load r (<[key := n + 1]> (load r)) in
  '(p, _) ← empty_cell p (location r);
  l ← dict_get (findings_locations r) key;
  Ok (p, set_findings_locations r
           (<[key := l ++ [location r]]> (findings_locations r))).

(** [Rover.gather] *)
Definition gather (p : Planet) (r : Rover) : result (Planet * Rover) :=
  cell ← get_cell p (location r);
  match cell with
  | WATER => gather_kind "WATER" p r
  | MINERAL => gather_kind "MINERAL" p r
  | _ => Ok (p, r)
  end.

(** ** sim.py: the fleet *)

(** [env] only orders the rover processes and [quadrants] is never read:
    neither is kept. *)
Record Fleet := mkFleet {
  planet : Planet;
  rovers : list Rover;
  lost_rovers : Z;
  water_total : Z;
  mineral_total : Z
}.

Definition set_planet (f : Fleet) (p : Planet) : Fleet :=
  mkFleet p (rovers f) (lost_rovers f) (water_total f) (mineral_total f).
Definition set_rovers (f : Fleet) (rs : list Rover) : Fleet :=
  mkFleet (planet f) rs (lost_rovers f) (water_total f) (mineral_total f).
Definition set_lost_rovers (f : Fleet) (n : Z) : Fleet :=
  mkFleet (planet f) (rovers f) n (water_total f) (mineral_total f).
Definition set_water_total (f : Fleet) (n : Z) : Fleet :=
  mkFleet (planet f) (rovers f) (lost_rovers f) n (mineral_total f).
Definition set_mineral_total (f : Fleet) (n : Z) : Fleet :=
  mkFleet (planet f) (rovers f) (lost_rovers f) (water_total f) n.

(** [Fleet.__init__].  [np.array_split] refuses a section count that is
    not positive; past it the divisions of the loop have a positive
    divisor. *)
Definition Fleet_init (p : Planet) (num_rovers distance : Z) : result Fleet :=
  if decide (num_rovers ≤ 0)
  then Raise (ValueError "number sections must be larger than 0.")
  else
    Ok {| planet := p;
          rovers :=
            (λ i, Rover_init (i + 1)
                    ((i * width p) `div` num_rovers + distance)
                    ((i * height p) `div` num_rovers))
            <$> seqZ 0 num_rovers;
          lost_rovers := 0;
          water_total := 0;
          mineral_total := 0 |}.

(** The [if rover.state == RoverState.GATHERING] block of
    [Fleet.rover_behavior]. *)
Definition gather_block (f : Fleet) (r : Rover) : result (Fleet * Rover) :=
  if decide (state r = GATHERING) then
    cell_before ← get_cell (planet f) (location r);
    '(p, r) ← gather (planet f) r;
    let f := set_planet f p in
    cell_after ← get_cell (planet f) (location r);
    let f :=
      if decide (cell_before ≠ cell_after) then
        match cell_before with
        | WATER => set_water_total f (water_total f + 1)
        | MINERAL => set_mineral_total f (mineral_total f + 1)
        | _ => f
        end
      else f in
    Ok (f, r)
  else Ok (f, r).

(** The body of the [while] loop of [Fleet.rover_behavior], up to the
    [yield]; [direction] is the draw of [np.random.choice]. *)
Definition rover_behavior_body (f : Fleet) (r : Rover) (direction : string)
  : result (Fleet * Rover) :=
  '(f, r) ← gather_block f r;
  '(r, _) ← move (planet f) r direction;
  let f :=
    if decide (state r = LOST) then set_lost_rovers f (lost_rovers f + 1)
    else f in
  Ok (f, r).

(** One turn of the process of rover [i]: nothing once the rover is lost
    (its generator has returned), one pass through the loop otherwise. *)
Definition rover_behavior (f : Fleet) (i : nat) (direction : string)
  : result Fleet :=
  r ← lookup_or_IndexError (rovers f !! i);
  if decide (state r = LOST) then Ok f
  else
    '(f, r) ← rover_behavior_body f r direction;
    Ok (set_rovers f (<[i := r]> (rovers f))).

(** Any interleaving of the processes: the rover whose turn it is and its
    draw.  The processes only hand over at [yield], so a turn is atomic. *)
Fixpoint run_turns (f : Fleet) (turns : list (nat * string)) : result Fleet :=
  match turns with
  | [] => Ok f
  | (i, d) :: turns => f ← rover_behavior f i d; run_turns f turns
  end.

(** One unit of simulated time: every rover takes its turn in the order
    the processes were created; [directions] holds one draw per rover. *)
Definition tick (f : Fleet) (directions : list string) : result Fleet :=
  run_turns f (imap (λ i d, (i, d)) directions).

(** [env.run(until=n)]: one tick per entry of [draws]. *)
Fixpoint run_ticks (f : Fleet) (draws : list (list string)) : result Fleet :=
  match draws with
  | [] => Ok f
  | ds :: draws => f ← tick f ds; run_ticks f draws
  end.

(** ** Quantities the properties speak about *)

Definition cardinal (direction : string) : Prop :=
  direction ∈ ["N"; "S"; "E"; "W"].

(** The counter [load[key]] of a rover (0 when the key is absent). *)
Definition load_of (key : string) (r : Rover) : Z :=
  default 0 (load r !! key).

(** The log [findings_locations[key]] of a rover. *)
Definition findings_of (key : string) (r : Rover) : list (Z * Z) :=
  default [] (findings_locations r !! key).

(** The sum of [f] over a list. *)
Definition sum_with {A} (f : A → Z) (l : list A) : Z :=
  foldr (λ x acc, f x + acc) 0 l.

(** The sum over the rovers of a fleet of the counter [load[key]]. *)
Definition sum_load (key : string) (rs : list Rover) : Z :=
  sum_with (load_of key) rs.

Definition count_row (c : CellType) (row : list CellType) : Z :=
  sum_with (λ x, if decide (x = c) then 1 else 0) row.

(** The number of cells of a grid that hold [c]. *)
Definition count_cells (c : CellType) (g : list (list CellType)) : Z :=
  sum_with (count_row c) g.

(** Both dicts of a rover have their two keys, as [Rover.__init__] makes
    them. *)
Definition rover_keys (r : Rover) : Prop :=
  is_Some (load r !! "WATER") ∧ is_Some (load r !! "MINERAL") ∧
  is_Some (findings_locations r !! "WATER") ∧
  is_Some (findings_locations r !! "MINERAL").

(** The dict key under which [gather] books a cell, if it books it. *)
Definition resource_key (c : CellType) : option string :=
  match c with
  | WATER => Some "WATER"
  | MINERAL => Some "MINERAL"
  | _ => None
  end.

(** The toroidally wrapped candidate of a step: the current position plus
    the unit vector, over the integers, wrapped. *)
Definition candidate (p : Planet) (r : Rover) (d : Z * Z) : Z * Z :=
  (((location r).1 + d.1) `mod` width p,
   ((location r).2 + d.2) `mod` height p).

(** The position [move] tries, [new_location] in the source: the sum is
    the one of int64 arrays. *)
Definition new_location (p : Planet) (r : Rover) (d : Z * Z) : Z * Z :=
  (np_add (location r).1 d.1 `mod` width p,
   np_add (location r).2 d.2 `mod` height p).

Definition int64 (z : Z) : Prop := - 2 ^ 63 ≤ z < 2 ^ 63.

(** The location of a rover is an int64 array. *)
Definition int64_location (r : Rover) : Prop :=
  int64 (location r).1 ∧ int64 (location r).2.

(** Both coordinates are off the two ends of the int64 range: a unit step
    does not overflow. *)
Definition step_in_range (r : Rover) : Prop :=
  - 2 ^ 63 < (location r).1 < 2 ^ 63 - 1 ∧
  - 2 ^ 63 < (location r).2 < 2 ^ 63 - 1.

(** The axes of the grid are shorter than 2^63, as those of a numpy array
    are. *)
Definition int64_shape (p : Planet) : Prop :=
  width p < 2 ^ 63 ∧ height p < 2 ^ 63.

(** The log of each kind is as long as the counter of that kind. *)
Definition log_matches_load (r : Rover) : Prop :=
  Z.of_nat (length (findings_of "WATER" r)) = load_of "WATER" r ∧
  Z.of_nat (length (findings_of "MINERAL" r)) = load_of "MINERAL" r.

(** The methods of a rover, as calls. *)
Inductive rover_op :=
  | Move (direction : string)
  | Gather
  | Update_state.

Definition run_op (p : Planet) (r : Rover) (op : rover_op)
  : result (Planet * Rover) :=
  match op with
  | Move direction => '(r, _) ← move p r direction; Ok (p, r)
  | Gather => gather p r
  | Update_state => r ← _update_state p r; Ok (p, r)
  end.

Fixpoint run_ops (p : Planet) (r : Rover) (ops : list rover_op)
  : result (Planet * Rover) :=
  match ops with
  | [] => Ok (p, r)
  | op :: ops => '(p, r) ← run_op p r op; run_ops p r ops
  end.

Definition cardinal_op (op : rover_op) : Prop :=
  match op with Move direction => cardinal direction | _ => True end.

(** How one call changes the counter and the log of one kind: not at all,
    or, for [gather] alone, by one unit and one position together. *)
Definition booked (key : string) (op : rover_op) (r r' : Rover) : Prop :=
  (load_of key r' = load_of key r ∧ findings_of key r' = findings_of key r)
  ∨ (op = Gather ∧ load_of key r' = load_of key r + 1 ∧
     findings_of key r' = findings_of key r ++ [location r]).

(** A lost rover stands on the accident cell that stopped it. *)
Definition lost_on_accident (p : Planet) (r : Rover) : Prop :=
  state r = LOST → get_cell p (location r) = Ok ACCIDENT.

Definition rover_inv (p : Planet) (r : Rover) : Prop :=
  rover_keys r ∧ log_matches_load r ∧ lost_on_accident p r.

(** Each fleet total is the sum of the rovers' counters of that kind, and
    is the number of cells of that kind that have left the grid since the
    fleet was built on [p0]. *)
Definition totals_mirror (p0 : Planet) (f : Fleet) : Prop :=
  water_total f = sum_load "WATER" (rovers f) ∧
  mineral_total f = sum_load "MINERAL" (rovers f) ∧
  water_total f =
    count_cells WATER (grid p0) - count_cells WATER (grid (planet f)) ∧
  mineral_total f =
    count_cells MINERAL (grid p0) - count_cells MINERAL (grid (planet f)).

(** The number of lost rovers of a list. *)
Definition lost_count (rs : list Rover) : Z :=
  sum_with (λ r, if decide (state r = LOST) then 1 else 0) rs.

(** The grid only loses resources: from [p] to [p'] the dimensions are
    kept and every cell is as it was, or held Water or Mineral and is
    Empty now. *)
Definition cells_evolve (p p' : Planet) : Prop :=
  width p' = width p ∧ height p' = height p ∧
  ∀ pos c, get_cell p pos = Ok c →
    get_cell p' pos = Ok c ∨
    (is_resource c = true ∧ get_cell p' pos = Ok EMPTY).

(** What holds of a fleet between two turns, [p0] being the planet the
    fleet was built on. *)
Definition fleet_inv (p0 : Planet) (f : Fleet) : Prop :=
  wf_planet (planet f) ∧
  Forall (rover_inv (planet f)) (rovers f) ∧
  totals_mirror p0 f ∧
  lost_rovers f = lost_count (rovers f) ∧
  cells_evolve p0 (planet f).

(** The turns of a fleet of [n] rovers that raise nothing: an index of the
    fleet and a cardinal direction. *)
Definition valid_turn (n : nat) (t : nat * string) : Prop :=
  (t.1 < n)%nat ∧ cardinal t.2.

(** The draws of one tick of a fleet of [n] rovers. *)
Definition valid_draws (n : nat) (ds : list string) : Prop :=
  length ds = n ∧ Forall cardinal ds.

(** 1 when the two cells are the same kind, 0 otherwise. *)
Definition same_kind (c0 c : CellType) : Z :=
  if decide (c0 = c) then 1 else 0.

(** The cell in row [i], column [j] of a grid. *)
Definition cell_at (g : list (list CellType)) (i j : nat)
  : option CellType :=
  row ← g !! i; row !! j.

(** A grid with the cell in row [i], column [j] set to [EMPTY]. *)
Definition clear_at (g : list (list CellType)) (i j : nat)
  : list (list CellType) :=
  match g !! i with
  | Some row => <[i := <[j := EMPTY]> row]> g
  | None => g
  end.

(** The row and column a position wraps to. *)
Definition wrap_index (p : Planet) (pos : Z * Z) : nat * nat :=
  (Z.to_nat (pos.1 `mod` width p), Z.to_nat (pos.2 `mod` height p)).

(** Concrete planets used in the examples. *)
Definition planet_1x1 (c : CellType) : Planet := mkPlanet "P" 1 1 [[c]].
Definition planet_3x1 (c0 c1 c2 : CellType) : Planet :=
  mkPlanet "P" 3 1 [[c0]; [c1]; [c2]].
Definition planet_2x1 (c0 c1 : CellType) : Planet :=
  mkPlanet "P" 2 1 [[c0]; [c1]].

(** The scenario of one rover at (0, 0) on a single Water cell: the fleet
    as built, after one tick and after two. *)
Definition scenario_start : Fleet :=
  mkFleet (planet_1x1 WATER) [Rover_init 1 0 0] 0 0 0.
Definition scenario_after_one_tick : Fleet :=
  mkFleet (planet_1x1 WATER) [set_state (Rover_init 1 0 0) GATHERING] 0 0 0.
Definition scenario_after_two_ticks : Fleet :=
  mkFleet (planet_1x1 EMPTY)
    [mkRover 1 (0, 0) EXPLORING
       {[ "WATER" := 1; "MINERAL" := 0 ]}
       {[ "WATER" := [(0, 0)]; "MINERAL" := [] ]}]
    0 1 0.

(** A rover that drove from (1, 0) onto the accident cell (0, 0). *)
Definition lost_rover : Rover :=
  set_state (set_location (Rover_init 1 1 0) (0, 0)) LOST.

(** The pairs of opposite directions of [movements]. *)
Definition opposite_directions : list (string * string) :=
  [("N", "S"); ("S", "N"); ("E", "W"); ("W", "E")].

(** The planet once the cell a position wraps to is set to [EMPTY]. *)
Definition cleared (p : Planet) (pos : Z * Z) : Planet :=
  set_grid p (clear_at (grid p) (wrap_index p pos).1 (wrap_index p pos).2).

(** The positions a rover has logged, of both kinds. *)
Definition logged (r : Rover) : list (Z * Z) :=
  findings_of "WATER" r ++ findings_of "MINERAL" r.

(** The positions the rovers of a list have logged under [key], and under
    either key. *)
Definition all_logged_kind (key : string) (rs : list Rover)
  : list (Z * Z) :=
  rs ≫= findings_of key.
Definition all_logged (rs : list Rover) : list (Z * Z) :=
  rs ≫= logged.

(** The logs of a fleet built on [p0] agree with the grid: no cell is
    logged twice, every logged cell is Empty now, and every position of
    the log of a kind held that kind on [p0]. *)
Definition logs_agree (p0 : Planet) (f : Fleet) : Prop :=
  NoDup (wrap p0 <$> all_logged (rovers f)) ∧
  Forall (λ pos, get_cell (planet f) pos = Ok EMPTY)
    (all_logged (rovers f)) ∧
  Forall (λ pos, get_cell p0 pos = Ok WATER)
    (all_logged_kind "WATER" (rovers f)) ∧
  Forall (λ pos, get_cell p0 pos = Ok MINERAL)
    (all_logged_kind "MINERAL" (rovers f)).

(** One row of the results table of [sim], with its nine columns (the
    column 'Planet' is [Planet_num]). *)
Record Row := mkRow {
  Planet_num : Z;
  Exploration : Z;
  Watet_probs : float;
  Mineral_probs : float;
  Accident_probs : float;
  Water_gathered : Z;
  Mineral_gathered : Z;
  Total_gathered : Z;
  Lost_rovers : Z
}.

(** [env.run(until=sim_times)] on the environment of a new fleet: simpy
    refuses an end that is not after the current time, 0 (its message,
    which quotes the value, is abridged); otherwise every rover takes one
    turn per unit of time.  [ticks] holds the draws of the [sim_times]
    ticks. *)
Definition env_run (f : Fleet) (ticks : list (list string)) : result Fleet :=
  match ticks with
  | [] => Raise (ValueError "until must be greater than the current time")
  | _ => run_ticks f ticks
  end.

(** The loop of [sim] over the fleets sent to one planet (the body of
    [for exploration_num in range(1, num_fleets + 1)]), from
    [exploration_num] on: every fleet is built on the planet as the
    fleets before left it.  [draws] holds, per fleet, the draws of its
    ticks; the rows are in the order [pd.concat] appends them.  Python's
    [int(a / b)] is a parameter. *)
Section Explorations.
Variable int_truediv : Z → Z → result Z.

Fixpoint explorations (planet_num : Z) (probs : float * float * float)
    (the_planet : Planet) (num_rovers : Z) (exploration_num : Z)
    (draws : list (list (list string))) : result (Planet * list Row) :=
  match draws with
  | [] => Ok (the_planet, [])
  | ticks :: draws =>
      distance ← int_truediv (width the_planet) num_rovers;
      fleet ← Fleet_init the_planet num_rovers distance;
      fleet ← env_run fleet ticks;
      let row :=
        {| Planet_num := planet_num;
           Exploration := exploration_num;
           Watet_probs := probs.1.1;
           Mineral_probs := probs.1.2;
           Accident_probs := probs.2;
           Water_gathered := water_total fleet;
           Mineral_gathered := mineral_total fleet;
           Total_gathered := water_total fleet + mineral_total fleet;
           Lost_rovers := lost_rovers fleet |} in
      '(the_planet, rows) ← explorations planet_num probs (planet fleet)
                              num_rovers (exploration_num + 1) draws;
      Ok (the_planet, row :: rows)
  end.
End Explorations.


(** * Properties *)

(** ** The grid *)

Lemma py_mod_pos a b : 0 < b → py_mod a b = Ok (a `mod` b).
Proof. intros Hb. unfold py_mod. case_decide; [lia | done]. Qed.

Lemma np_mod_pos a b : 0 < b → np_mod a b = a `mod` b.
Proof. intros Hb. unfold np_mod. case_decide; [lia | done]. Qed.

Lemma np_index_in_range n i :
  0 ≤ i < Z.of_nat n → np_index n i = Ok (Z.to_nat i).
Proof. intros Hi. unfold np_index. case_decide; [done | lia]. Qed.

Lemma wrap_index_lt p pos :
  wf_planet p →
  ((wrap_index p pos).1 < length (grid p))%nat ∧
  Forall (λ row, ((wrap_index p pos).2 < length row)%nat) (grid p).
Proof.
  intros (Hw & Hh & Hlen & Hrows). unfold wrap_index; simpl.
  pose proof (Z.mod_pos_bound pos.1 (width p) Hw).
  pose proof (Z.mod_pos_bound pos.2 (height p) Hh).
  split; [lia |].
  eapply Forall_impl; [exact Hrows |]. simpl. intros row Hrow. lia.
Qed.

Lemma cell_at_is_Some p pos :
  wf_planet p →
  is_Some (cell_at (grid p) (wrap_index p pos).1 (wrap_index p pos).2).
Proof.
  intros Hwf. destruct (wrap_index_lt p pos Hwf) as [Hi Hj].
  destruct (lookup_lt_is_Some_2 _ _ Hi) as [row Hrow].
  unfold cell_at. rewrite Hrow. simpl.
  apply lookup_lt_is_Some_2.
  rewrite Forall_forall in Hj. apply Hj.
  eapply list_elem_of_lookup_2, Hrow.
Qed.

Lemma grid_get_cell_at g (i j : nat) row :
  g !! i = Some row → (j < length row)%nat →
  grid_get g (Z.of_nat i) (Z.of_nat j) = lookup_or_IndexError (row !! j).
Proof.
  intros Hrow Hj. unfold grid_get.
  pose proof (lookup_lt_Some _ _ _ Hrow) as Hi.
  rewrite np_index_in_range by lia. simpl.
  rewrite Nat2Z.id, Hrow. simpl.
  rewrite np_index_in_range by lia. simpl.
  by rewrite Nat2Z.id.
Qed.

(** The wrapped coordinates of a position are the indices of a row of the
    grid and of a cell of that row. *)
Lemma wrap_index_row p pos :
  wf_planet p →
  ∃ row, grid p !! (wrap_index p pos).1 = Some row ∧
         ((wrap_index p pos).2 < length row)%nat ∧
         pos.1 `mod` width p = Z.of_nat (wrap_index p pos).1 ∧
         pos.2 `mod` height p = Z.of_nat (wrap_index p pos).2.
Proof.
  intros Hwf. pose proof Hwf as (Hw & Hh & _).
  destruct (wrap_index_lt p pos Hwf) as [Hi Hj].
  destruct (lookup_lt_is_Some_2 _ _ Hi) as [row Hrow].
  exists row. split; [done |]. split.
  - rewrite Forall_forall in Hj. apply Hj.
    eapply list_elem_of_lookup_2, Hrow.
  - pose proof (Z.mod_pos_bound pos.1 (width p) Hw).
    pose proof (Z.mod_pos_bound pos.2 (height p) Hh).
    unfold wrap_index; simpl. lia.
Qed.

(** On a well-formed planet [get_cell] returns the cell at the wrapped
    index and raises nothing. *)
Lemma get_cell_cell_at p pos c :
  wf_planet p →
  get_cell p pos = Ok c ↔
  cell_at (grid p) (wrap_index p pos).1 (wrap_index p pos).2 = Some c.
Proof.
  intros Hwf. pose proof Hwf as (Hw & Hh & _).
  destruct (wrap_index_row p pos Hwf) as (row & Hrow & Hj & Hx & Hy).
  unfold get_cell, cell_at. rewrite !py_mod_pos, Hx, Hy, Hrow by done.
  cbn [mbind result_bind option_bind].
  rewrite (grid_get_cell_at _ _ _ row) by done.
  destruct (row !! _); simpl; split; congruence.
Qed.

Lemma get_cell_total p pos : wf_planet p → ∃ c, get_cell p pos = Ok c.
Proof.
  intros Hwf. destruct (cell_at_is_Some p pos Hwf) as [c Hc].
  exists c. by apply get_cell_cell_at.
Qed.

Lemma cell_at_clear_at_eq g i j :
  is_Some (cell_at g i j) → cell_at (clear_at g i j) i j = Some EMPTY.
Proof.
  unfold cell_at, clear_at. intros [c Hc].
  destruct (g !! i) as [row|] eqn:Hrow; simpl in *; [| done].
  rewrite list_lookup_insert_eq by eauto using lookup_lt_Some. simpl.
  apply list_lookup_insert_eq. eauto using lookup_lt_Some.
Qed.

Lemma cell_at_clear_at_ne g i j i' j' :
  (i', j') ≠ (i, j) → cell_at (clear_at g i j) i' j' = cell_at g i' j'.
Proof.
  unfold cell_at, clear_at. intros Hne.
  destruct (g !! i) as [row|] eqn:Hrow; [| done].
  destruct (decide (i' = i)) as [->|Hi].
  - rewrite list_lookup_insert_eq, Hrow by eauto using lookup_lt_Some.
    simpl. apply list_lookup_insert_ne. congruence.
  - by rewrite list_lookup_insert_ne.
Qed.

Lemma wf_planet_clear_at p i j :
  wf_planet p → wf_planet (set_grid p (clear_at (grid p) i j)).
Proof.
  intros (Hw & Hh & Hlen & Hrows). unfold wf_planet, clear_at; simpl.
  destruct (grid p !! i) as [row|] eqn:Hrow; [| done].
  rewrite length_insert. repeat split; try done.
  apply Forall_insert; [done |]. rewrite length_insert.
  rewrite Forall_forall in Hrows. apply Hrows.
  eapply list_elem_of_lookup_2, Hrow.
Qed.

(** What [empty_cell] does on a well-formed planet, by the content of the
    wrapped cell. *)
Lemma empty_cell_unfold p pos c :
  wf_planet p → get_cell p pos = Ok c →
  empty_cell p pos =
    if is_resource c
    then Ok (set_grid p (clear_at (grid p) (wrap_index p pos).1
                           (wrap_index p pos).2), true)
    else Ok (p, false).
Proof.
  intros Hwf Hc. pose proof Hwf as (Hw & Hh & _).
  destruct (wrap_index_row p pos Hwf) as (row & Hrow & Hj & Hx & Hy).
  pose proof (lookup_lt_Some _ _ _ Hrow) as Hi.
  revert Hc. unfold get_cell, empty_cell.
  rewrite !py_mod_pos, Hx, Hy by done. cbn [mbind result_bind].
  intros ->. cbn [mbind result_bind].
  unfold grid_set, clear_at.
  rewrite np_index_in_range by lia. cbn [mbind result_bind].
  rewrite Nat2Z.id, Hrow. cbn [mbind result_bind lookup_or_IndexError].
  rewrite np_index_in_range by lia. cbn [mbind result_bind].
  rewrite Nat2Z.id. by destruct c.
Qed.

Lemma wrap_index_wrap p pos :
  wf_planet p → wrap_index p (wrap p pos) = wrap_index p pos.
Proof.
  intros (Hw & Hh & _). unfold wrap_index, wrap; simpl.
  by rewrite !Z.mod_mod by lia.
Qed.

Lemma wrap_index_inj p pos pos' :
  wf_planet p → wrap_index p pos = wrap_index p pos' → wrap p pos = wrap p pos'.
Proof.
  intros (Hw & Hh & _). unfold wrap_index, wrap. intros [= Hx Hy].
  pose proof (Z.mod_pos_bound pos.1 (width p) Hw).
  pose proof (Z.mod_pos_bound pos.2 (height p) Hh).
  pose proof (Z.mod_pos_bound pos'.1 (width p) Hw).
  pose proof (Z.mod_pos_bound pos'.2 (height p) Hh).
  f_equal; lia.
Qed.

Lemma get_cell_wrap p pos :
  wf_planet p → get_cell p (wrap p pos) = get_cell p pos.
Proof.
  intros Hwf. destruct (get_cell_total p pos Hwf) as [c Hc]. rewrite Hc.
  apply get_cell_cell_at; [done |]. rewrite wrap_index_wrap by done.
  by apply get_cell_cell_at.
Qed.

Lemma wf_planet_2x1 c0 c1 : wf_planet (planet_2x1 c0 c1).
Proof. repeat split; simpl; try lia. by repeat constructor. Qed.

Lemma wf_planet_3x1 c0 c1 c2 : wf_planet (planet_3x1 c0 c1 c2).
Proof.
  split; [simpl; lia |]. split; [simpl; lia |]. split; [done |].
  by repeat constructor.
Qed.

Lemma wf_planet_1x1 c : wf_planet (planet_1x1 c).
Proof. repeat split; simpl; try lia. by repeat constructor. Qed.

(** The planet [empty_cell] leaves after it cleared the cell of [pos]. *)
Lemma get_cell_cleared_eq p pos :
  wf_planet p →
  get_cell (set_grid p (clear_at (grid p) (wrap_index p pos).1
                          (wrap_index p pos).2)) pos = Ok EMPTY.
Proof.
  intros Hwf. apply get_cell_cell_at; [by apply wf_planet_clear_at |].
  change (wrap_index (set_grid p _) pos) with (wrap_index p pos).
  cbn [grid set_grid].
  apply cell_at_clear_at_eq, (cell_at_is_Some p pos Hwf).
Qed.

Lemma get_cell_cleared_ne p pos pos' :
  wf_planet p → wrap p pos' ≠ wrap p pos →
  get_cell (set_grid p (clear_at (grid p) (wrap_index p pos).1
                          (wrap_index p pos).2)) pos' = get_cell p pos'.
Proof.
  intros Hwf Hne. destruct (get_cell_total p pos' Hwf) as [c' Hc'].
  rewrite Hc'. apply get_cell_cell_at; [by apply wf_planet_clear_at |].
  change (wrap_index (set_grid p _) pos') with (wrap_index p pos').
  cbn [grid set_grid]. rewrite cell_at_clear_at_ne.
  - by apply get_cell_cell_at.
  - intros Heq. apply Hne. apply wrap_index_inj; [done |].
    by destruct (wrap_index p pos'), (wrap_index p pos).
Qed.

(** C4.  On a grid world of width W >= 1 and height H >= 1, [get_cell]
    raises nothing for any integers x and y, negative or beyond the
    bounds, and returns the same cell as at (x mod W, y mod H), the
    remainders being the non-negative ones. *)
Theorem get_cell_toroidal (p : Planet) (x y : Z) :
  wf_planet p →
  ∃ c, get_cell p (x, y) = Ok c ∧
       get_cell p (x `mod` width p, y `mod` height p) = Ok c ∧
       0 ≤ x `mod` width p < width p ∧ 0 ≤ y `mod` height p < height p.
Proof.
  intros Hwf. destruct (get_cell_total p (x, y) Hwf) as [c Hc].
  exists c. split; [done |]. split.
  - rewrite <- Hc. apply (get_cell_wrap p (x, y) Hwf).
  - destruct Hwf as (Hw & Hh & _).
    split; apply Z.mod_pos_bound; lia.
Qed.

Lemma get_cell_toroidal_witness :
  wf_planet (planet_2x1 OBSTACLE WATER) ∧
  ∃ c, get_cell (planet_2x1 OBSTACLE WATER) (-1, 7) = Ok c ∧
       get_cell (planet_2x1 OBSTACLE WATER) ((-1) `mod` 2, 7 `mod` 1) = Ok c ∧
       0 ≤ (-1) `mod` 2 < 2 ∧ 0 ≤ 7 `mod` 1 < 1.
Proof.
  split; [apply wf_planet_2x1 |].
  apply (get_cell_toroidal (planet_2x1 OBSTACLE WATER) (-1) 7).
  apply wf_planet_2x1.
Defined.

(** C3, as the code has it.  On a well-formed grid world and for every
    position, [empty_cell] sets the wrapped cell to Empty and returns True
    exactly when that cell is Water or Mineral, leaving every other cell
    as it was; otherwise it changes nothing and returns False.  The value
    returned is a flag and does not say which kind was cleared.  A second
    call on the same position returns False and the cell stays Empty. *)
Theorem empty_cell_clears_once (p : Planet) (pos : Z * Z) :
  wf_planet p →
  ∃ c, get_cell p pos = Ok c ∧
    if is_resource c then
      ∃ p', empty_cell p pos = Ok (p', true) ∧
            wf_planet p' ∧ width p' = width p ∧ height p' = height p ∧
            get_cell p' pos = Ok EMPTY ∧
            (∀ pos', wrap p pos' ≠ wrap p pos →
                     get_cell p' pos' = get_cell p pos') ∧
            empty_cell p' pos = Ok (p', false)
    else empty_cell p pos = Ok (p, false).
Proof.
  intros Hwf. destruct (get_cell_total p pos Hwf) as [c Hc].
  exists c. split; [done |].
  rewrite (empty_cell_unfold p pos c Hwf Hc).
  destruct (is_resource c) eqn:Hres; [| done].
  set (p' := set_grid p _).
  assert (wf_planet p') as Hwf' by apply wf_planet_clear_at, Hwf.
  assert (get_cell p' pos = Ok EMPTY) as Hc'
    by apply get_cell_cleared_eq, Hwf.
  exists p'. split; [done |]. split; [done |].
  split; [done |]. split; [done |]. split; [done |]. split.
  - intros pos' Hne. by apply get_cell_cleared_ne.
  - by rewrite (empty_cell_unfold p' pos EMPTY Hwf' Hc').
Qed.

Lemma empty_cell_clears_once_witness :
  wf_planet (planet_2x1 MINERAL WATER) ∧
  ∃ c, get_cell (planet_2x1 MINERAL WATER) (3, 0) = Ok c ∧
    if is_resource c then
      ∃ p', empty_cell (planet_2x1 MINERAL WATER) (3, 0) = Ok (p', true) ∧
            wf_planet p' ∧ width p' = 2 ∧ height p' = 1 ∧
            get_cell p' (3, 0) = Ok EMPTY ∧
            (∀ pos', wrap (planet_2x1 MINERAL WATER) pos' ≠
                       wrap (planet_2x1 MINERAL WATER) (3, 0) →
                     get_cell p' pos' =
                       get_cell (planet_2x1 MINERAL WATER) pos') ∧
            empty_cell p' (3, 0) = Ok (p', false)
    else empty_cell (planet_2x1 MINERAL WATER) (3, 0) =
           Ok (planet_2x1 MINERAL WATER, false).
Proof.
  split; [apply wf_planet_2x1 |].
  apply (empty_cell_clears_once (planet_2x1 MINERAL WATER) (3, 0)).
  apply wf_planet_2x1.
Defined.

(** C3 as stated fails: the value returned does not tell which kind was
    cleared.  Clearing a Water cell and clearing a Mineral cell return the
    same [True] (and leave the same grid). *)
Lemma empty_cell_returns_no_kind :
  get_cell (planet_1x1 WATER) (0, 0) = Ok WATER ∧
  get_cell (planet_1x1 MINERAL) (0, 0) = Ok MINERAL ∧
  empty_cell (planet_1x1 WATER) (0, 0) = Ok (planet_1x1 EMPTY, true) ∧
  empty_cell (planet_1x1 MINERAL) (0, 0) = Ok (planet_1x1 EMPTY, true).
Proof. repeat split. Qed.

(** ** The rover *)

Lemma movements_N : movements !! "N" = Some (0, 1).
Proof. reflexivity. Qed.
Lemma movements_S : movements !! "S" = Some (0, -1).
Proof. reflexivity. Qed.
Lemma movements_E : movements !! "E" = Some (1, 0).
Proof. reflexivity. Qed.
Lemma movements_W : movements !! "W" = Some (-1, 0).
Proof. reflexivity. Qed.

Lemma cardinal_cases direction :
  cardinal direction →
  direction = "N" ∨ direction = "S" ∨ direction = "E" ∨ direction = "W".
Proof.
  unfold cardinal. rewrite !elem_of_cons, elem_of_nil. tauto.
Qed.

Lemma cardinal_movements direction :
  cardinal direction →
  ∃ d, movements !! direction = Some d ∧
       (direction, d) ∈
         [("N", (0, 1)); ("S", (0, -1)); ("E", (1, 0)); ("W", (-1, 0))].
Proof.
  intros H. apply cardinal_cases in H as [-> | [-> | [-> | ->]]];
    eexists; (split; [reflexivity |]);
    rewrite !elem_of_cons; tauto.
Qed.

(** An integer of the int64 range is kept as it is. *)
Lemma int64_wrap_id z : int64 z → int64_wrap z = z.
Proof.
  unfold int64, int64_wrap. intros Hz.
  rewrite Z.mod_small by lia. lia.
Qed.

(** Off the two ends of the int64 range a unit step is the sum over the
    integers. *)
Lemma np_add_unit a d :
  - 2 ^ 63 < a < 2 ^ 63 - 1 → -1 ≤ d ≤ 1 → np_add a d = a + d.
Proof.
  intros Ha Hd. unfold np_add. apply int64_wrap_id. unfold int64. lia.
Qed.

Lemma movements_unit direction d :
  movements !! direction = Some d → (-1 ≤ d.1 ≤ 1) ∧ (-1 ≤ d.2 ≤ 1).
Proof.
  intros Hd.
  assert (cardinal direction) as Hdir.
  { unfold cardinal. rewrite !elem_of_cons.
    destruct (decide (direction = "N")) as [-> | ?]; [tauto |].
    destruct (decide (direction = "S")) as [-> | ?]; [tauto |].
    destruct (decide (direction = "E")) as [-> | ?]; [tauto |].
    destruct (decide (direction = "W")) as [-> | ?]; [tauto |].
    exfalso. unfold movements in Hd.
    rewrite !lookup_insert_ne in Hd by done.
    by rewrite lookup_singleton_ne in Hd. }
  apply cardinal_cases in Hdir as [-> | [-> | [-> | ->]]];
    vm_compute in Hd; injection Hd as <-; simpl; lia.
Qed.

(** Where no unit step overflows, [move] tries the toroidally wrapped
    candidate. *)
Lemma new_location_candidate p r direction d :
  step_in_range r → movements !! direction = Some d →
  new_location p r d = candidate p r d.
Proof.
  intros [Hx Hy] Hd. destruct (movements_unit direction d Hd) as [H1 H2].
  unfold new_location, candidate.
  by rewrite (np_add_unit _ _ Hx H1), (np_add_unit _ _ Hy H2).
Qed.

(** What [move] does on a well-formed planet once the direction is a key
    of [movements]. *)
Lemma move_unfold p r direction d c :
  wf_planet p → movements !! direction = Some d →
  get_cell p (new_location p r d) = Ok c →
  move p r direction =
    if decide (c = OBSTACLE) then Ok (r, false)
    else Ok (set_state (set_location r (new_location p r d))
               (state_of_cell c),
             true).
Proof.
  intros Hwf Hd Hc. pose proof Hwf as (Hw & Hh & _).
  unfold move, dict_get. rewrite Hd. destruct d as [dx dy].
  cbn [mbind result_bind]. rewrite !np_mod_pos by done.
  change (_ `mod` _, _ `mod` _) with (new_location p r (dx, dy)).
  rewrite Hc. cbn [mbind result_bind].
  case_decide; [done |].
  unfold _update_state. cbn [location set_location].
  rewrite Hc. done.
Qed.

(** C5.  For every rover whose location is an int64 array, on a
    well-formed planet, and every cardinal direction: the cell [move]
    tries is the position plus the unit vector, added as int64 and
    wrapped, which is the toroidally wrapped candidate whenever neither
    coordinate is at an end of the int64 range.  When that cell is an
    Obstacle, [move] returns False and the rover is exactly as before
    (position and state included); otherwise it returns True, the position
    is that cell and the state is the one the transition rule gives for it
    (Water or Mineral: Gathering, Hazard: Lost, else Exploring), the rest
    of the rover being untouched. *)
Theorem move_blocked_or_steps (p : Planet) (r : Rover) (direction : string) :
  wf_planet p → int64_location r → cardinal direction →
  ∃ d c,
    (direction, d) ∈
      [("N", (0, 1)); ("S", (0, -1)); ("E", (1, 0)); ("W", (-1, 0))] ∧
    (step_in_range r → new_location p r d = candidate p r d) ∧
    get_cell p (new_location p r d) = Ok c ∧
    if decide (c = OBSTACLE) then move p r direction = Ok (r, false)
    else
      ∃ r', move p r direction = Ok (r', true) ∧
            location r' = new_location p r d ∧
            state r' =
              match c with
              | WATER | MINERAL => GATHERING
              | ACCIDENT => LOST
              | _ => EXPLORING
              end ∧
            rover_id r' = rover_id r ∧ load r' = load r ∧
            findings_locations r' = findings_locations r.
Proof.
  intros Hwf _ Hdir.
  destruct (cardinal_movements direction Hdir) as (d & Hd & Hin).
  destruct (get_cell_total p (new_location p r d) Hwf) as [c Hc].
  exists d, c. split; [done |].
  split; [intros Hr; by eapply new_location_candidate |].
  split; [done |].
  rewrite (move_unfold p r direction d c Hwf Hd Hc).
  case_decide; [done |].
  eexists. split; [reflexivity |]. by destruct c.
Qed.

Lemma move_blocked_or_steps_witness :
  wf_planet (planet_2x1 OBSTACLE WATER) ∧
  int64_location (Rover_init 1 1 0) ∧ cardinal "W" ∧
  ∃ d c,
    ("W", d) ∈
      [("N", (0, 1)); ("S", (0, -1)); ("E", (1, 0)); ("W", (-1, 0))] ∧
    (step_in_range (Rover_init 1 1 0) →
     new_location (planet_2x1 OBSTACLE WATER) (Rover_init 1 1 0) d =
       candidate (planet_2x1 OBSTACLE WATER) (Rover_init 1 1 0) d) ∧
    get_cell (planet_2x1 OBSTACLE WATER)
      (new_location (planet_2x1 OBSTACLE WATER) (Rover_init 1 1 0) d) =
      Ok c ∧
    if decide (c = OBSTACLE)
    then move (planet_2x1 OBSTACLE WATER) (Rover_init 1 1 0) "W" =
           Ok (Rover_init 1 1 0, false)
    else
      ∃ r', move (planet_2x1 OBSTACLE WATER) (Rover_init 1 1 0) "W" =
              Ok (r', true) ∧
            location r' =
              new_location (planet_2x1 OBSTACLE WATER) (Rover_init 1 1 0) d ∧
            state r' =
              match c with
              | WATER | MINERAL => GATHERING
              | ACCIDENT => LOST
              | _ => EXPLORING
              end ∧
            rover_id r' = rover_id (Rover_init 1 1 0) ∧
            load r' = load (Rover_init 1 1 0) ∧
            findings_locations r' = findings_locations (Rover_init 1 1 0).
Proof.
  split; [apply wf_planet_2x1 |].
  split; [unfold int64_location, int64; simpl; lia |].
  split; [unfold cardinal; rewrite !elem_of_cons; tauto |].
  apply (move_blocked_or_steps (planet_2x1 OBSTACLE WATER)
           (Rover_init 1 1 0) "W").
  - apply wf_planet_2x1.
  - unfold int64_location, int64; simpl; lia.
  - unfold cardinal; rewrite !elem_of_cons; tauto.
Defined.

(** C5 as stated fails at the end of the int64 range.  On a planet of
    three columns (Empty, Water, Accident) a rover at x = 2^63 - 1 moves
    East: the toroidally wrapped candidate is column 2, an Accident cell,
    so the rover should step there and be lost; the int64 sum wraps to
    -2^63 and the rover steps to column 1, a Water cell, and is
    Gathering. *)
Lemma move_wraps_at_the_int64_bound :
  wf_planet (planet_3x1 EMPTY WATER ACCIDENT) ∧
  int64_location (Rover_init 1 (2 ^ 63 - 1) 0) ∧
  candidate (planet_3x1 EMPTY WATER ACCIDENT)
    (Rover_init 1 (2 ^ 63 - 1) 0) (1, 0) = (2, 0) ∧
  get_cell (planet_3x1 EMPTY WATER ACCIDENT) (2, 0) = Ok ACCIDENT ∧
  get_cell (planet_3x1 EMPTY WATER ACCIDENT) (1, 0) = Ok WATER ∧
  move (planet_3x1 EMPTY WATER ACCIDENT) (Rover_init 1 (2 ^ 63 - 1) 0) "E" =
    Ok (set_state (set_location (Rover_init 1 (2 ^ 63 - 1) 0) (1, 0))
          GATHERING, true).
Proof.
  split; [apply wf_planet_3x1 |].
  split; [unfold int64_location, int64; simpl; lia |].
  split_and!; vm_compute; reflexivity.
Qed.

Example move_blocked_example :
  move (planet_2x1 OBSTACLE WATER) (Rover_init 1 1 0) "W" =
    Ok (Rover_init 1 1 0, false) ∧
  move (planet_2x1 OBSTACLE WATER) (Rover_init 1 1 0) "N" =
    Ok (set_state (Rover_init 1 1 0) GATHERING, true).
Proof. split; reflexivity. Qed.

Lemma load_of_insert_eq key n r :
  load_of key (set_load r (<[key := n]> (load r))) = n.
Proof. unfold load_of; simpl. by rewrite lookup_insert_eq. Qed.

Lemma load_of_insert_ne key key' n r :
  key ≠ key' → load_of key' (set_load r (<[key := n]> (load r))) = load_of key' r.
Proof. intros. unfold load_of; simpl. by rewrite lookup_insert_ne. Qed.

(** One branch of [gather] on a well-formed planet, the rover standing on
    a resource cell and its dicts holding the key. *)
Lemma gather_kind_unfold key p r c n l :
  wf_planet p → get_cell p (location r) = Ok c → is_resource c = true →
  load r !! key = Some n → findings_locations r !! key = Some l →
  gather_kind key p r =
    Ok (set_grid p (clear_at (grid p) (wrap_index p (location r)).1
                      (wrap_index p (location r)).2),
        mkRover (rover_id r) (location r) (state r)
          (<[key := n + 1]> (load r))
          (<[key := l ++ [location r]]> (findings_locations r))).
Proof.
  intros Hwf Hc Hres Hn Hl. unfold gather_kind, dict_get.
  rewrite Hn. cbn [mbind result_bind location set_load findings_locations].
  rewrite (empty_cell_unfold p (location r) c Hwf Hc), Hres.
  cbn [mbind result_bind]. by rewrite Hl.
Qed.

(** [gather] on a well-formed planet, by the content of the rover's
    cell. *)
Lemma gather_unfold p r c :
  wf_planet p → rover_keys r → get_cell p (location r) = Ok c →
  gather p r =
    match resource_key c with
    | Some key =>
        Ok (set_grid p (clear_at (grid p) (wrap_index p (location r)).1
                          (wrap_index p (location r)).2),
            mkRover (rover_id r) (location r) (state r)
              (<[key := load_of key r + 1]> (load r))
              (<[key := findings_of key r ++ [location r]]>
                 (findings_locations r)))
    | None => Ok (p, r)
    end.
Proof.
  intros Hwf ([nw Hnw] & [nm Hnm] & [lw Hlw] & [lm Hlm]) Hc.
  unfold gather. rewrite Hc. cbn [mbind result_bind].
  destruct c; try done; simpl.
  - rewrite (gather_kind_unfold "WATER" p r WATER nw lw) by done.
    unfold load_of, findings_of. by rewrite Hnw, Hlw.
  - rewrite (gather_kind_unfold "MINERAL" p r MINERAL nm lm) by done.
    unfold load_of, findings_of. by rewrite Hnm, Hlm.
Qed.

Lemma rover_keys_init rover_id x y : rover_keys (Rover_init rover_id x y).
Proof. repeat split; by eexists. Qed.

Lemma log_matches_load_init rover_id x y :
  log_matches_load (Rover_init rover_id x y).
Proof. split; reflexivity. Qed.

Lemma is_Some_lookup_insert {V} (m : gmap string V) key key' v :
  is_Some (m !! key') → is_Some (<[key := v]> m !! key').
Proof.
  intros H. destruct (decide (key = key')) as [-> | Hne].
  - rewrite lookup_insert_eq. by eexists.
  - by rewrite lookup_insert_ne.
Qed.

(** [gather] on a well-formed planet returns, and keeps the planet
    well-formed and the rover's keys. *)
Lemma gather_total p r :
  wf_planet p → rover_keys r →
  ∃ p' r', gather p r = Ok (p', r') ∧ wf_planet p' ∧ rover_keys r' ∧
           width p' = width p ∧ height p' = height p ∧
           location r' = location r ∧ state r' = state r ∧
           rover_id r' = rover_id r.
Proof.
  intros Hwf Hkeys. destruct (get_cell_total p (location r) Hwf) as [c Hc].
  rewrite (gather_unfold p r c Hwf Hkeys Hc).
  destruct (resource_key c) as [key|].
  - eexists _, _. split; [reflexivity |].
    split; [by apply wf_planet_clear_at |].
    split; [| done].
    destruct Hkeys as (? & ? & ? & ?).
    repeat split; simpl; by apply is_Some_lookup_insert.
  - by eexists _, _.
Qed.

(** [move] on a well-formed planet with a cardinal direction returns, and
    touches neither the counters nor the logs. *)
Lemma move_total p r direction :
  wf_planet p → cardinal direction →
  ∃ r' b, move p r direction = Ok (r', b) ∧
          load r' = load r ∧ findings_locations r' = findings_locations r ∧
          rover_id r' = rover_id r.
Proof.
  intros Hwf Hdir.
  destruct (cardinal_movements direction Hdir) as (d & Hd & _).
  destruct (get_cell_total p (new_location p r d) Hwf) as [c Hc].
  rewrite (move_unfold p r direction d c Hwf Hd Hc).
  case_decide; by eexists _, _.
Qed.

(** C6.  For every rover (with the two keys of its dicts) on a well-formed
    planet, [gather] on a Water cell adds exactly 1 to the Water counter,
    appends the current position to the Water log and leaves the cell
    Empty, the Mineral counter and log being untouched; symmetrically on a
    Mineral cell; on any other cell the planet and the rover are exactly
    as before.  In every case the state, the position and the identifier
    of the rover are unchanged. *)
Theorem gather_books_the_cell (p : Planet) (r : Rover) :
  wf_planet p → rover_keys r →
  ∃ c p' r',
    get_cell p (location r) = Ok c ∧ gather p r = Ok (p', r') ∧
    state r' = state r ∧ location r' = location r ∧
    rover_id r' = rover_id r ∧
    match c with
    | WATER =>
        load_of "WATER" r' = load_of "WATER" r + 1 ∧
        findings_of "WATER" r' = findings_of "WATER" r ++ [location r] ∧
        load_of "MINERAL" r' = load_of "MINERAL" r ∧
        findings_of "MINERAL" r' = findings_of "MINERAL" r ∧
        get_cell p' (location r) = Ok EMPTY
    | MINERAL =>
        load_of "MINERAL" r' = load_of "MINERAL" r + 1 ∧
        findings_of "MINERAL" r' = findings_of "MINERAL" r ++ [location r] ∧
        load_of "WATER" r' = load_of "WATER" r ∧
        findings_of "WATER" r' = findings_of "WATER" r ∧
        get_cell p' (location r) = Ok EMPTY
    | _ => p' = p ∧ r' = r
    end.
Proof.
  intros Hwf Hkeys. destruct (get_cell_total p (location r) Hwf) as [c Hc].
  assert (is_resource c = true → get_cell
            (set_grid p (clear_at (grid p) (wrap_index p (location r)).1
                           (wrap_index p (location r)).2))
            (location r) = Ok EMPTY) as Hcleared.
  { intros _. by apply get_cell_cleared_eq. }
  exists c. rewrite (gather_unfold p r c Hwf Hkeys Hc).
  destruct c; simpl; eexists _, _;
    (split; [done |]); (split; [reflexivity |]);
    repeat split; try done;
    unfold load_of, findings_of; simpl;
    rewrite ?lookup_insert_eq, ?lookup_insert_ne by done; try done;
    by apply Hcleared.
Qed.

Lemma gather_books_the_cell_witness :
  wf_planet (planet_1x1 WATER) ∧ rover_keys (Rover_init 1 0 0) ∧
  ∃ c p' r',
    get_cell (planet_1x1 WATER) (location (Rover_init 1 0 0)) = Ok c ∧
    gather (planet_1x1 WATER) (Rover_init 1 0 0) = Ok (p', r') ∧
    state r' = state (Rover_init 1 0 0) ∧
    location r' = location (Rover_init 1 0 0) ∧
    rover_id r' = rover_id (Rover_init 1 0 0) ∧
    match c with
    | WATER =>
        load_of "WATER" r' = load_of "WATER" (Rover_init 1 0 0) + 1 ∧
        findings_of "WATER" r' =
          findings_of "WATER" (Rover_init 1 0 0) ++
            [location (Rover_init 1 0 0)] ∧
        load_of "MINERAL" r' = load_of "MINERAL" (Rover_init 1 0 0) ∧
        findings_of "MINERAL" r' =
          findings_of "MINERAL" (Rover_init 1 0 0) ∧
        get_cell p' (location (Rover_init 1 0 0)) = Ok EMPTY
    | MINERAL =>
        load_of "MINERAL" r' = load_of "MINERAL" (Rover_init 1 0 0) + 1 ∧
        findings_of "MINERAL" r' =
          findings_of "MINERAL" (Rover_init 1 0 0) ++
            [location (Rover_init 1 0 0)] ∧
        load_of "WATER" r' = load_of "WATER" (Rover_init 1 0 0) ∧
        findings_of "WATER" r' = findings_of "WATER" (Rover_init 1 0 0) ∧
        get_cell p' (location (Rover_init 1 0 0)) = Ok EMPTY
    | _ => p' = planet_1x1 WATER ∧ r' = Rover_init 1 0 0
    end.
Proof.
  split; [apply wf_planet_1x1 |].
  split; [apply rover_keys_init |].
  apply (gather_books_the_cell (planet_1x1 WATER) (Rover_init 1 0 0)).
  - apply wf_planet_1x1.
  - apply rover_keys_init.
Defined.

Example gather_example :
  gather (planet_1x1 WATER) (Rover_init 1 0 0) =
    Ok (planet_1x1 EMPTY,
        mkRover 1 (0, 0) EXPLORING
          {[ "WATER" := 1; "MINERAL" := 0 ]}
          {[ "WATER" := [(0, 0)]; "MINERAL" := [] ]}) ∧
  gather (planet_1x1 ACCIDENT) (Rover_init 1 0 0) =
    Ok (planet_1x1 ACCIDENT, Rover_init 1 0 0).
Proof. split; reflexivity. Qed.

Lemma run_op_booked p r op :
  wf_planet p → rover_keys r → cardinal_op op →
  ∃ p' r', run_op p r op = Ok (p', r') ∧ wf_planet p' ∧ rover_keys r' ∧
           booked "WATER" op r r' ∧ booked "MINERAL" op r r'.
Proof.
  intros Hwf Hkeys Hop. destruct op as [direction| |]; simpl in *.
  - destruct (move_total p r direction Hwf Hop)
      as (r' & b & -> & Hload & Hlog & _).
    exists p, r'. cbn [mbind result_bind]. split; [done |].
    split; [done |]. unfold rover_keys, booked, load_of, findings_of.
    rewrite Hload, Hlog. split; [done |]. split; by left.
  - destruct (get_cell_total p (location r) Hwf) as [c Hc].
    destruct (gather_total p r Hwf Hkeys)
      as (p' & r' & Hg & Hwf' & Hkeys' & _).
    exists p', r'. split; [done |]. split; [done |]. split; [done |].
    rewrite (gather_unfold p r c Hwf Hkeys Hc) in Hg.
    unfold booked, load_of, findings_of.
    destruct c; simpl in Hg; injection Hg as <- <-; simpl;
      rewrite ?lookup_insert_eq, ?lookup_insert_ne by done; simpl;
      split; first [by left | by right].
  - destruct (get_cell_total p (location r) Hwf) as [c Hc].
    unfold _update_state. rewrite Hc. cbn [mbind result_bind].
    eexists _, _. split; [reflexivity |]. split; [done |].
    split; [done |]. split; by left.
Qed.

Lemma booked_log_matches_load op r r' :
  booked "WATER" op r r' → booked "MINERAL" op r r' →
  log_matches_load r → log_matches_load r'.
Proof.
  unfold log_matches_load.
  intros [[-> ->] | (_ & -> & ->)] [[-> ->] | (_ & -> & ->)] [Hw Hm];
    rewrite ?length_app; simpl; lia.
Qed.

Lemma run_ops_log_matches_load p r ops :
  wf_planet p → rover_keys r → Forall cardinal_op ops →
  log_matches_load r →
  ∃ p' r', run_ops p r ops = Ok (p', r') ∧ wf_planet p' ∧ rover_keys r' ∧
           log_matches_load r'.
Proof.
  intros Hwf Hkeys Hops. revert p r Hwf Hkeys.
  induction Hops as [| op ops Hop _ IH]; intros p r Hwf Hkeys Hlog.
  - by exists p, r.
  - destruct (run_op_booked p r op Hwf Hkeys Hop)
      as (p1 & r1 & Hrun & Hwf1 & Hkeys1 & Hbw & Hbm).
    simpl. rewrite Hrun. cbn [mbind result_bind].
    apply IH; try done. by eapply booked_log_matches_load.
Qed.

(** C10.  A rover starts with both counters at zero and both logs empty.
    Every call of [move] (with a cardinal direction), [gather] or
    [_update_state] on a well-formed planet leaves the counter and the log
    of each kind as they were, or -- and this only [gather] does -- adds 1
    to the counter and appends one position to the log in the same call.  Hence after any
    sequence of calls the log of each kind is as long as its counter. *)
Theorem log_length_equals_load
    (p : Planet) (rover_id x y : Z) (ops : list rover_op) :
  wf_planet p → Forall cardinal_op ops →
  (load_of "WATER" (Rover_init rover_id x y) = 0 ∧
   load_of "MINERAL" (Rover_init rover_id x y) = 0 ∧
   findings_of "WATER" (Rover_init rover_id x y) = [] ∧
   findings_of "MINERAL" (Rover_init rover_id x y) = []) ∧
  (∃ p' r',
     run_ops p (Rover_init rover_id x y) ops = Ok (p', r') ∧
     Z.of_nat (length (findings_of "WATER" r')) = load_of "WATER" r' ∧
     Z.of_nat (length (findings_of "MINERAL" r')) = load_of "MINERAL" r') ∧
  (∀ q r op, wf_planet q → rover_keys r → cardinal_op op →
     ∃ q' r', run_op q r op = Ok (q', r') ∧
              booked "WATER" op r r' ∧ booked "MINERAL" op r r').
Proof.
  intros Hwf Hops. split; [done |]. split.
  - destruct (run_ops_log_matches_load p (Rover_init rover_id x y) ops)
      as (p' & r' & Hrun & _ & _ & Hlog);
      auto using rover_keys_init, log_matches_load_init.
    by exists p', r'.
  - intros q r op Hq Hr Hop.
    destruct (run_op_booked q r op Hq Hr Hop)
      as (q' & r' & Hrun & _ & _ & Hbw & Hbm).
    by exists q', r'.
Qed.

Lemma log_length_equals_load_witness :
  wf_planet (planet_2x1 MINERAL WATER) ∧
  Forall cardinal_op [Gather; Move "E"; Gather; Gather] ∧
  ∃ p' r',
    run_ops (planet_2x1 MINERAL WATER) (Rover_init 1 0 0)
      [Gather; Move "E"; Gather; Gather] = Ok (p', r') ∧
    Z.of_nat (length (findings_of "WATER" r')) = load_of "WATER" r' ∧
    Z.of_nat (length (findings_of "MINERAL" r')) = load_of "MINERAL" r'.
Proof.
  assert (Forall cardinal_op [Gather; Move "E"; Gather; Gather]) as Hops.
  { repeat constructor. }
  split; [apply wf_planet_2x1 |]. split; [exact Hops |].
  apply (log_length_equals_load (planet_2x1 MINERAL WATER) 1 0 0
           [Gather; Move "E"; Gather; Gather] (wf_planet_2x1 _ _) Hops).
Defined.

(** ** The fleet *)

Lemma sum_with_insert {A} (f : A → Z) (l : list A) i x y :
  l !! i = Some x → sum_with f (<[i := y]> l) = sum_with f l - f x + f y.
Proof.
  revert i. induction l as [| a l IH]; intros [| i] Hi; simplify_eq/=.
  - unfold sum_with; simpl. lia.
  - unfold sum_with in *; simpl. rewrite (IH i) by done. lia.
Qed.

Lemma sum_with_zero {A} (f : A → Z) (l : list A) :
  Forall (λ x, f x = 0) l → sum_with f l = 0.
Proof.
  induction 1 as [| x l Hx _ IH]; [done |].
  unfold sum_with in *; simpl. lia.
Qed.

Lemma count_cells_clear_at c g i j c0 :
  cell_at g i j = Some c0 →
  count_cells c (clear_at g i j) =
    count_cells c g - same_kind c0 c + same_kind EMPTY c.
Proof.
  unfold cell_at, clear_at. intros Hc.
  destruct (g !! i) as [row|] eqn:Hrow; simpl in Hc; [| done].
  unfold count_cells. rewrite (sum_with_insert _ _ _ row) by done.
  unfold count_row at 3. rewrite (sum_with_insert _ _ _ c0) by done.
  fold (count_row c row). unfold same_kind. lia.
Qed.

Lemma cells_evolve_refl p : cells_evolve p p.
Proof. split_and!; [done | done |]. intros pos c Hc. by left. Qed.

Lemma cells_evolve_trans p1 p2 p3 :
  cells_evolve p1 p2 → cells_evolve p2 p3 → cells_evolve p1 p3.
Proof.
  intros (Hw & Hh & H12) (Hw' & Hh' & H23).
  split_and!; [congruence | congruence |]. intros pos c Hc.
  destruct (H12 pos c Hc) as [Hc2 | [Hres Hc2]].
  - apply (H23 pos c Hc2).
  - right. split; [done |].
    by destruct (H23 pos EMPTY Hc2) as [? | [? _]].
Qed.

(** Clearing the cell of [pos], a resource cell, is such a step. *)
Lemma cells_evolve_cleared p pos c :
  wf_planet p → get_cell p pos = Ok c → is_resource c = true →
  cells_evolve p
    (set_grid p (clear_at (grid p) (wrap_index p pos).1
                   (wrap_index p pos).2)).
Proof.
  intros Hwf Hc Hres. split_and!; [done | done |]. intros pos' c' Hc'.
  destruct (decide (wrap p pos' = wrap p pos)) as [Heq | Hne].
  - right.
    rewrite <- (get_cell_wrap p pos'), Heq, get_cell_wrap, Hc in Hc'
      by done.
    injection Hc' as <-. split; [done |].
    rewrite <- (get_cell_wrap _ pos') by by apply wf_planet_clear_at.
    change (wrap (set_grid p ?g) pos') with (wrap p pos').
    rewrite Heq.
    change (wrap p pos) with (wrap (set_grid p
      (clear_at (grid p) (wrap_index p pos).1 (wrap_index p pos).2)) pos).
    rewrite get_cell_wrap by by apply wf_planet_clear_at.
    by apply get_cell_cleared_eq.
  - left. by rewrite get_cell_cleared_ne.
Qed.

Lemma cells_evolve_accident p p' pos :
  cells_evolve p p' → get_cell p pos = Ok ACCIDENT →
  get_cell p' pos = Ok ACCIDENT.
Proof. intros (_ & _ & H) Hc. by destruct (H pos ACCIDENT Hc) as [? | [? _]]. Qed.

(** The gathering block of a turn: it returns, and the fleet totals move
    exactly as the rover's counters and as the grid's stock do. *)
Lemma gather_block_spec f r :
  wf_planet (planet f) → rover_keys r →
  ∃ f1 r1, gather_block f r = Ok (f1, r1) ∧
    wf_planet (planet f1) ∧ rover_keys r1 ∧
    rovers f1 = rovers f ∧ lost_rovers f1 = lost_rovers f ∧
    state r1 = state r ∧ location r1 = location r ∧
    (log_matches_load r → log_matches_load r1) ∧
    water_total f1 - water_total f =
      load_of "WATER" r1 - load_of "WATER" r ∧
    mineral_total f1 - mineral_total f =
      load_of "MINERAL" r1 - load_of "MINERAL" r ∧
    water_total f1 - water_total f =
      count_cells WATER (grid (planet f)) -
      count_cells WATER (grid (planet f1)) ∧
    mineral_total f1 - mineral_total f =
      count_cells MINERAL (grid (planet f)) -
      count_cells MINERAL (grid (planet f1)) ∧
    cells_evolve (planet f) (planet f1).
Proof.
  intros Hwf Hkeys. unfold gather_block.
  case_decide as Hstate.
  2:{ exists f, r. split_and!; try done; try lia. apply cells_evolve_refl. }
  destruct (get_cell_total (planet f) (location r) Hwf) as [c Hc].
  rewrite Hc. cbn [mbind result_bind].
  rewrite (gather_unfold (planet f) r c Hwf Hkeys Hc).
  destruct (resource_key c) as [key|] eqn:Hkey.
  - assert (is_resource c = true) as Hres by by destruct c.
    cbn [mbind result_bind planet set_planet location].
    rewrite get_cell_cleared_eq by done. cbn [mbind result_bind].
    pose proof (proj1 (get_cell_cell_at _ _ _ Hwf) Hc) as Hat.
    pose proof (count_cells_clear_at WATER _ _ _ _ Hat) as HcW.
    pose proof (count_cells_clear_at MINERAL _ _ _ _ Hat) as HcM.
    pose proof (cells_evolve_cleared _ _ _ Hwf Hc Hres) as Hev.
    destruct Hkeys as (? & ? & ? & ?).
    destruct c; simplify_eq/=; eexists _, _; (split; [reflexivity |]);
      unfold same_kind in *; simpl in *;
      (split; [by apply wf_planet_clear_at |]);
      (split; [by repeat split; simpl; apply is_Some_lookup_insert |]);
      (do 4 (split; [done |]));
      (split; [ unfold log_matches_load, load_of, findings_of; simpl;
                rewrite ?lookup_insert_eq, ?lookup_insert_ne by done; simpl;
                rewrite ?length_app; simpl; lia |]);
      unfold load_of; simpl;
      rewrite ?lookup_insert_eq, ?lookup_insert_ne by done; simpl;
      (split_and!; try lia); exact Hev.
  - cbn [mbind result_bind planet set_planet]. rewrite Hc.
    cbn [mbind result_bind]. case_decide; [done |].
    eexists _, _. split; [reflexivity |]. simpl.
    split_and!; try done; try lia. apply cells_evolve_refl.
Qed.

(** After [move] a lost rover stands on an accident cell. *)
Lemma move_lost_on_accident p r direction r' b :
  wf_planet p → cardinal direction → lost_on_accident p r →
  move p r direction = Ok (r', b) → lost_on_accident p r'.
Proof.
  intros Hwf Hdir Hr Hmove.
  destruct (cardinal_movements direction Hdir) as (d & Hd & _).
  destruct (get_cell_total p (new_location p r d) Hwf) as [c Hc].
  rewrite (move_unfold p r direction d c Hwf Hd Hc) in Hmove.
  case_decide; simplify_eq; [done |].
  unfold lost_on_accident; simpl. rewrite Hc. by destruct c.
Qed.

Lemma rover_inv_same_dicts p r r' :
  load r' = load r → findings_locations r' = findings_locations r →
  rover_keys r → log_matches_load r → lost_on_accident p r' →
  rover_inv p r'.
Proof.
  intros Hload Hlog Hkeys Hmatch Hlost.
  unfold rover_inv, rover_keys, log_matches_load, load_of, findings_of in *.
  by rewrite Hload, Hlog.
Qed.

(** One turn of a rover keeps the fleet invariant. *)
Lemma rover_behavior_inv p0 f i direction :
  fleet_inv p0 f → (i < length (rovers f))%nat → cardinal direction →
  ∃ f', rover_behavior f i direction = Ok f' ∧ fleet_inv p0 f' ∧
        length (rovers f') = length (rovers f).
Proof.
  intros (Hwf & Hrs & (Hw & Hm & HcW & HcM) & Hlc & Hev) Hi Hdir.
  destruct (lookup_lt_is_Some_2 _ _ Hi) as [r Hr].
  unfold rover_behavior. rewrite Hr.
  cbn [mbind result_bind lookup_or_IndexError].
  case_decide as Hlost; [by exists f |].
  pose proof (Forall_lookup_1 _ _ _ _ Hrs Hr) as (Hkeys & Hmatch & Hacc).
  destruct (gather_block_spec f r Hwf Hkeys)
    as (f1 & r1 & Hblock & Hwf1 & Hkeys1 & Hrovers & Hlr & Hst & Hloc &
        Hmatch1 & HdW & HdM & HgW & HgM & Hev1).
  unfold rover_behavior_body. rewrite Hblock. cbn [mbind result_bind].
  destruct (move_total (planet f1) r1 direction Hwf1 Hdir)
    as (r2 & b & Hmove & Hload & Hlog & _).
  rewrite Hmove. cbn [mbind result_bind].
  assert (lost_on_accident (planet f1) r2) as Hacc2.
  { eapply move_lost_on_accident; [done | done | | exact Hmove].
    intros Hl. congruence. }
  assert (rover_inv (planet f1) r2) as Hinv2
    by (apply (rover_inv_same_dicts _ r1); auto).
  assert (Forall (rover_inv (planet f1)) (rovers f)) as Hrs1.
  { eapply Forall_impl; [exact Hrs |]. intros r' (? & ? & Hl).
    split_and!; [done | done |]. intros Hs.
    eapply cells_evolve_accident; [exact Hev1 |]. apply Hl, Hs. }
  assert (load_of "WATER" r2 = load_of "WATER" r1) as HlW
    by (unfold load_of; by rewrite Hload).
  assert (load_of "MINERAL" r2 = load_of "MINERAL" r1) as HlM
    by (unfold load_of; by rewrite Hload).
  pose proof (cells_evolve_trans _ _ _ Hev Hev1) as Hev2.
  eexists. split; [reflexivity |].
  unfold fleet_inv, totals_mirror, sum_load, lost_count in *.
  case_decide as Hlost2;
    cbn [planet rovers water_total mineral_total lost_rovers
         set_rovers set_lost_rovers];
    rewrite Hrovers, length_insert, !(sum_with_insert _ _ _ r) by done;
    (split_and!; [done | by apply Forall_insert | lia.. | | done | done]);
    repeat case_decide; (done || lia).
Qed.

Lemma run_turns_inv p0 f turns :
  fleet_inv p0 f →
  Forall (valid_turn (length (rovers f))) turns →
  ∃ f', run_turns f turns = Ok f' ∧ fleet_inv p0 f' ∧
        length (rovers f') = length (rovers f).
Proof.
  intros Hinv Hturns. revert f Hinv Hturns.
  induction turns as [| [i d] turns IH]; intros f Hinv Hturns.
  - by exists f.
  - apply Forall_cons in Hturns as [[Hi Hd] Hturns]. simpl in Hi, Hd.
    destruct (rover_behavior_inv p0 f i d Hinv Hi Hd)
      as (f1 & Hturn & Hinv1 & Hlen).
    simpl. rewrite Hturn. cbn [mbind result_bind].
    destruct (IH f1 Hinv1) as (f' & Hrun & Hinv' & Hlen').
    { by rewrite Hlen. }
    exists f'. split_and!; [done | done | congruence].
Qed.

Lemma run_turns_app f turns1 turns2 :
  run_turns f (turns1 ++ turns2) =
    f' ← run_turns f turns1; run_turns f' turns2.
Proof.
  revert f. induction turns1 as [| [i d] turns1 IH]; intros f; [done |].
  simpl. destruct (rover_behavior f i d) as [f1|e]; [| done].
  cbn [mbind result_bind]. apply IH.
Qed.

(** A run of ticks is one interleaving of turns. *)
Lemma run_ticks_run_turns f draws :
  run_ticks f draws =
    run_turns f (concat ((λ ds, imap (λ i d, (i, d)) ds) <$> draws)).
Proof.
  revert f. induction draws as [| ds draws IH]; intros f; [done |].
  simpl. rewrite run_turns_app. unfold tick.
  destruct (run_turns f _) as [f1|e]; [| done].
  cbn [mbind result_bind]. apply IH.
Qed.

Lemma valid_draws_valid_turns n draws :
  Forall (valid_draws n) draws →
  Forall (valid_turn n)
    (concat ((λ ds, imap (λ i d, (i, d)) ds) <$> draws)).
Proof.
  intros Hdraws. apply Forall_concat, Forall_fmap.
  eapply Forall_impl; [exact Hdraws |]. intros ds [Hlen Hds]. simpl.
  apply Forall_lookup. intros k [i d] Hk.
  rewrite list_lookup_imap in Hk.
  destruct (ds !! k) as [d'|] eqn:Hd; simplify_eq/=.
  split; simpl.
  - by eapply lookup_lt_Some.
  - by eapply Forall_lookup_1.
Qed.

Lemma length_rovers_Fleet_init p num_rovers distance f :
  Fleet_init p num_rovers distance = Ok f →
  length (rovers f) = Z.to_nat num_rovers.
Proof.
  unfold Fleet_init. case_decide; [done |]. intros [= <-]. simpl.
  by rewrite length_fmap, length_seqZ.
Qed.

(** [Fleet.__init__] returns for a positive number of rovers, with the
    fleet invariant in place. *)
Lemma Fleet_init_inv p num_rovers distance :
  wf_planet p → 0 < num_rovers →
  ∃ f, Fleet_init p num_rovers distance = Ok f ∧ fleet_inv p f ∧
       length (rovers f) = Z.to_nat num_rovers.
Proof.
  intros Hwf Hn. unfold Fleet_init. case_decide; [lia |].
  eexists. split; [reflexivity |].
  split; [| by simpl; rewrite length_fmap, length_seqZ].
  unfold fleet_inv, totals_mirror, sum_load, lost_count; simpl.
  rewrite !sum_with_zero by (apply Forall_fmap, Forall_true; done).
  split_and!; try done; [| lia.. | apply cells_evolve_refl].
  apply Forall_fmap, Forall_true. intros i.
  split_and!; [apply rover_keys_init | apply log_matches_load_init | done].
Qed.

Lemma fleet_inv_totals_mirror p0 f : fleet_inv p0 f → totals_mirror p0 f.
Proof. by intros (_ & _ & ? & _). Qed.

(** C8.  On a well-formed planet, after any number of turns of a fleet's
    rovers -- in any interleaving, and in particular after any number of
    ticks -- the run returns and each fleet total equals the sum over the
    rovers of that rover's counter of the same kind; it also equals the
    number of cells of that kind that have left the grid since the fleet
    was built, so the total rises by one once for each Water
    (respectively Mineral) cell a [gather] call removes. *)
Theorem fleet_totals_mirror_loads
    (p : Planet) (num_rovers distance : Z)
    (turns : list (nat * string)) (draws : list (list string)) :
  wf_planet p → 0 < num_rovers →
  Forall (valid_turn (Z.to_nat num_rovers)) turns →
  Forall (valid_draws (Z.to_nat num_rovers)) draws →
  ∃ f0,
    Fleet_init p num_rovers distance = Ok f0 ∧
    (∃ f, run_turns f0 turns = Ok f ∧ totals_mirror p f) ∧
    (∃ f, run_ticks f0 draws = Ok f ∧ totals_mirror p f).
Proof.
  intros Hwf Hn Hturns Hdraws.
  destruct (Fleet_init_inv p num_rovers distance Hwf Hn)
    as (f0 & Hinit & Hinv & Hlen).
  exists f0. split; [done |]. rewrite <- Hlen in Hturns, Hdraws. split.
  - destruct (run_turns_inv p f0 turns Hinv Hturns) as (f & Hrun & Hf & _).
    exists f. eauto using fleet_inv_totals_mirror.
  - rewrite run_ticks_run_turns.
    destruct (run_turns_inv p f0 _ Hinv
                (valid_draws_valid_turns _ _ Hdraws)) as (f & Hrun & Hf & _).
    exists f. eauto using fleet_inv_totals_mirror.
Qed.

Lemma fleet_totals_mirror_loads_witness :
  wf_planet (planet_2x1 MINERAL WATER) ∧ 0 < 2 ∧
  Forall (valid_turn (Z.to_nat 2)) [(1, "E"); (1, "N"); (0, "N")]%nat ∧
  Forall (valid_draws (Z.to_nat 2)) [["N"; "E"]; ["S"; "W"]; ["E"; "E"]] ∧
  ∃ f0,
    Fleet_init (planet_2x1 MINERAL WATER) 2 0 = Ok f0 ∧
    (∃ f, run_turns f0 [(1, "E"); (1, "N"); (0, "N")]%nat = Ok f ∧
          totals_mirror (planet_2x1 MINERAL WATER) f) ∧
    (∃ f, run_ticks f0 [["N"; "E"]; ["S"; "W"]; ["E"; "E"]] = Ok f ∧
          totals_mirror (planet_2x1 MINERAL WATER) f).
Proof.
  assert (Forall (valid_turn (Z.to_nat 2))
            [(1, "E"); (1, "N"); (0, "N")]%nat) as Hturns.
  { repeat constructor. }
  assert (Forall (valid_draws (Z.to_nat 2))
            [["N"; "E"]; ["S"; "W"]; ["E"; "E"]]) as Hdraws.
  { repeat constructor. }
  split; [apply wf_planet_2x1 |]. split; [lia |].
  split; [exact Hturns |]. split; [exact Hdraws |].
  apply (fleet_totals_mirror_loads (planet_2x1 MINERAL WATER) 2 0
           [(1, "E"); (1, "N"); (0, "N")]%nat
           [["N"; "E"]; ["S"; "W"]; ["E"; "E"]]
           (wf_planet_2x1 _ _) ltac:(lia) Hturns Hdraws).
Defined.

(** Two rovers on a Mineral cell and a Water cell: both cells are gathered
    in the second tick. *)
Example run_ticks_example :
  ∃ f0 f,
    Fleet_init (planet_2x1 MINERAL WATER) 2 0 = Ok f0 ∧
    run_ticks f0 [["N"; "N"]; ["S"; "S"]] = Ok f ∧
    water_total f = 1 ∧ mineral_total f = 1 ∧ lost_rovers f = 0 ∧
    grid (planet f) = [[EMPTY]; [EMPTY]] ∧
    load_of "MINERAL" <$> rovers f = [1; 0] ∧
    load_of "WATER" <$> rovers f = [0; 1].
Proof.
  eexists _, _. split; [reflexivity |].
  split; [vm_compute; reflexivity |].
  split_and!; reflexivity.
Qed.

Lemma lookup_rovers_Fleet_init p num_rovers distance f (i : nat) r :
  Fleet_init p num_rovers distance = Ok f → rovers f !! i = Some r →
  r = Rover_init (Z.of_nat i + 1)
        ((Z.of_nat i * width p) `div` num_rovers + distance)
        ((Z.of_nat i * height p) `div` num_rovers).
Proof.
  unfold Fleet_init. case_decide; [done |]. intros [= <-]. simpl.
  rewrite list_lookup_fmap. intros Hr.
  destruct (seqZ 0 num_rovers !! i) as [z|] eqn:Hz; simplify_eq/=.
  apply lookup_seqZ in Hz as [-> _]. by rewrite Z.add_0_l.
Qed.

(** [Fleet.__init__] with a positive number N of rovers returns a fleet of
    N rovers, rover i sitting at ((i*W)//N + D, (i*H)//N) with identifier
    i+1 and in the state [Rover.__init__] assigns, Exploring. *)
Theorem fleet_rovers_start_exploring (p : Planet) (num_rovers distance : Z) :
  0 < num_rovers →
  ∃ f, Fleet_init p num_rovers distance = Ok f ∧
       planet f = p ∧
       length (rovers f) = Z.to_nat num_rovers ∧
       ∀ (i : nat) r, rovers f !! i = Some r →
         state r = EXPLORING ∧
         location r =
           ((Z.of_nat i * width p) `div` num_rovers + distance,
            (Z.of_nat i * height p) `div` num_rovers) ∧
         rover_id r = Z.of_nat i + 1.
Proof.
  intros Hn.
  assert (∃ f, Fleet_init p num_rovers distance = Ok f ∧ planet f = p)
    as (f & Hf & Hp).
  { unfold Fleet_init. case_decide; [lia |]. by eexists. }
  exists f. split; [done |]. split; [done |].
  split; [by eapply length_rovers_Fleet_init |].
  intros i r Hr.
  by rewrite (lookup_rovers_Fleet_init _ _ _ _ _ _ Hf Hr).
Qed.

Lemma fleet_rovers_start_exploring_witness :
  0 < 2 ∧
  ∃ f, Fleet_init (planet_2x1 ACCIDENT WATER) 2 0 = Ok f ∧
       planet f = planet_2x1 ACCIDENT WATER ∧
       length (rovers f) = Z.to_nat 2 ∧
       ∀ (i : nat) r, rovers f !! i = Some r →
         state r = EXPLORING ∧
         location r =
           ((Z.of_nat i * width (planet_2x1 ACCIDENT WATER)) `div` 2 + 0,
            (Z.of_nat i * height (planet_2x1 ACCIDENT WATER)) `div` 2) ∧
         rover_id r = Z.of_nat i + 1.
Proof.
  split; [lia |].
  apply (fleet_rovers_start_exploring (planet_2x1 ACCIDENT WATER) 2 0).
  lia.
Defined.

(** C1.  The code departs from the claim: [Rover.__init__] assigns
    Exploring and does not call [_update_state], the rule that [move]
    applies after every step.  A fleet built with its rover on a Water
    cell has it Exploring where the rule gives Gathering, and a fleet
    built with its rover on an accident cell has it Exploring where the
    rule gives Lost; [_update_state], had it been called, sets these
    states. *)
Lemma fleet_start_ignores_the_cell :
  Fleet_init (planet_1x1 WATER) 1 0 =
    Ok (mkFleet (planet_1x1 WATER) [Rover_init 1 0 0] 0 0 0) ∧
  Fleet_init (planet_1x1 ACCIDENT) 1 0 =
    Ok (mkFleet (planet_1x1 ACCIDENT) [Rover_init 1 0 0] 0 0 0) ∧
  state (Rover_init 1 0 0) = EXPLORING ∧
  get_cell (planet_1x1 WATER) (location (Rover_init 1 0 0)) = Ok WATER ∧
  get_cell (planet_1x1 ACCIDENT) (location (Rover_init 1 0 0)) =
    Ok ACCIDENT ∧
  state_of_cell WATER = GATHERING ∧ state_of_cell ACCIDENT = LOST ∧
  _update_state (planet_1x1 WATER) (Rover_init 1 0 0) =
    Ok (set_state (Rover_init 1 0 0) GATHERING) ∧
  _update_state (planet_1x1 ACCIDENT) (Rover_init 1 0 0) =
    Ok (set_state (Rover_init 1 0 0) LOST).
Proof. split_and!; reflexivity. Qed.

Lemma gather_on_accident p r :
  get_cell p (location r) = Ok ACCIDENT → gather p r = Ok (p, r).
Proof. intros Hc. unfold gather. by rewrite Hc. Qed.

(** C2, as the code has it.  In a fleet run on a well-formed planet a lost
    rover stands on an accident cell; [gather] leaves it and the planet
    exactly as they are, and its turn in the fleet is skipped whatever
    the draw, so the fleet never calls [move] or [gather] on it again.
    ([move] itself does not look at the state.) *)
Theorem lost_rover_is_skipped
    (p : Planet) (num_rovers distance : Z) (turns : list (nat * string)) :
  wf_planet p → 0 < num_rovers →
  Forall (valid_turn (Z.to_nat num_rovers)) turns →
  ∃ f0 f,
    Fleet_init p num_rovers distance = Ok f0 ∧ run_turns f0 turns = Ok f ∧
    ∀ i r, rovers f !! i = Some r → state r = LOST →
      get_cell (planet f) (location r) = Ok ACCIDENT ∧
      gather (planet f) r = Ok (planet f, r) ∧
      ∀ direction, rover_behavior f i direction = Ok f.
Proof.
  intros Hwf Hn Hturns.
  destruct (Fleet_init_inv p num_rovers distance Hwf Hn)
    as (f0 & Hinit & Hinv & Hlen).
  rewrite <- Hlen in Hturns.
  destruct (run_turns_inv p f0 turns Hinv Hturns)
    as (f & Hrun & (_ & Hrs & _) & _).
  exists f0, f. split; [done |]. split; [done |].
  intros i r Hr Hlost.
  destruct (Forall_lookup_1 _ _ _ _ Hrs Hr) as (_ & _ & Hacc).
  specialize (Hacc Hlost). split; [done |].
  split; [by apply gather_on_accident |].
  intros direction. unfold rover_behavior. rewrite Hr.
  cbn [mbind result_bind lookup_or_IndexError]. by case_decide.
Qed.

Lemma lost_rover_is_skipped_witness :
  wf_planet (planet_2x1 ACCIDENT EMPTY) ∧ 0 < 1 ∧
  Forall (valid_turn (Z.to_nat 1)) [(0, "E"); (0, "N")]%nat ∧
  ∃ f0 f,
    Fleet_init (planet_2x1 ACCIDENT EMPTY) 1 1 = Ok f0 ∧
    run_turns f0 [(0, "E"); (0, "N")]%nat = Ok f ∧
    ∀ i r, rovers f !! i = Some r → state r = LOST →
      get_cell (planet f) (location r) = Ok ACCIDENT ∧
      gather (planet f) r = Ok (planet f, r) ∧
      ∀ direction, rover_behavior f i direction = Ok f.
Proof.
  assert (Forall (valid_turn (Z.to_nat 1)) [(0, "E"); (0, "N")]%nat)
    as Hturns by repeat constructor.
  split; [apply wf_planet_2x1 |]. split; [lia |]. split; [exact Hturns |].
  apply (lost_rover_is_skipped (planet_2x1 ACCIDENT EMPTY) 1 1
           [(0, "E"); (0, "N")]%nat (wf_planet_2x1 _ _) ltac:(lia) Hturns).
Defined.

(** The run of the witness above does lose its rover, on the first turn,
    and the second turn changes nothing. *)
Example lost_rover_example :
  Fleet_init (planet_2x1 ACCIDENT EMPTY) 1 1 =
    Ok (mkFleet (planet_2x1 ACCIDENT EMPTY) [Rover_init 1 1 0] 0 0 0) ∧
  run_turns (mkFleet (planet_2x1 ACCIDENT EMPTY) [Rover_init 1 1 0] 0 0 0)
    [(0, "E")]%nat =
    Ok (mkFleet (planet_2x1 ACCIDENT EMPTY) [lost_rover] 1 0 0) ∧
  run_turns (mkFleet (planet_2x1 ACCIDENT EMPTY) [Rover_init 1 1 0] 0 0 0)
    [(0, "E"); (0, "N")]%nat =
    Ok (mkFleet (planet_2x1 ACCIDENT EMPTY) [lost_rover] 1 0 0).
Proof. split_and!; vm_compute; reflexivity. Qed.

(** C2 as stated fails for [move]: the rover that drove onto the accident
    cell (0, 0) and is Lost there is moved by a further call, to (1, 0),
    and is Exploring again. *)
Lemma move_moves_a_lost_rover :
  move (planet_2x1 ACCIDENT EMPTY) (Rover_init 1 1 0) "E" =
    Ok (lost_rover, true) ∧
  state lost_rover = LOST ∧ location lost_rover = (0, 0) ∧
  move (planet_2x1 ACCIDENT EMPTY) lost_rover "E" =
    Ok (Rover_init 1 1 0, true) ∧
  state (Rover_init 1 1 0) = EXPLORING ∧
  location (Rover_init 1 1 0) = (1, 0).
Proof. split_and!; vm_compute; reflexivity. Qed.

(** The run of the code on the 1x1 grid whose cell is Water, with one
    rover placed at (0, 0): the rover starts Exploring; the first tick
    gathers nothing and its move (back onto the same cell) leaves the
    rover Gathering, the water total 0 and the cell Water; the second tick
    gathers: the water total is 1, the cell is Empty and the rover is
    Exploring at (0, 0) after its move.  This holds for every draw of the
    two directions. *)
Theorem single_water_cell_scenario (d1 d2 : string) :
  cardinal d1 → cardinal d2 →
  (Fleet_init (planet_1x1 WATER) 1 0 = Ok scenario_start ∧
   location <$> rovers scenario_start = [(0, 0)] ∧
   state <$> rovers scenario_start = [EXPLORING]) ∧
  (tick scenario_start [d1] = Ok scenario_after_one_tick ∧
   water_total scenario_after_one_tick = 0 ∧
   get_cell (planet scenario_after_one_tick) (0, 0) = Ok WATER ∧
   state <$> rovers scenario_after_one_tick = [GATHERING]) ∧
  (run_ticks scenario_start [[d1]; [d2]] = Ok scenario_after_two_ticks ∧
   water_total scenario_after_two_ticks = 1 ∧
   get_cell (planet scenario_after_two_ticks) (0, 0) = Ok EMPTY ∧
   state <$> rovers scenario_after_two_ticks = [EXPLORING] ∧
   location <$> rovers scenario_after_two_ticks = [(0, 0)]).
Proof.
  intros H1 H2.
  apply cardinal_cases in H1 as [-> | [-> | [-> | ->]]];
    apply cardinal_cases in H2 as [-> | [-> | [-> | ->]]];
    split_and!; vm_compute; reflexivity.
Qed.

Lemma single_water_cell_scenario_witness :
  cardinal "N" ∧ cardinal "W" ∧
  (Fleet_init (planet_1x1 WATER) 1 0 = Ok scenario_start ∧
   location <$> rovers scenario_start = [(0, 0)] ∧
   state <$> rovers scenario_start = [EXPLORING]) ∧
  (tick scenario_start ["N"] = Ok scenario_after_one_tick ∧
   water_total scenario_after_one_tick = 0 ∧
   get_cell (planet scenario_after_one_tick) (0, 0) = Ok WATER ∧
   state <$> rovers scenario_after_one_tick = [GATHERING]) ∧
  (run_ticks scenario_start [["N"]; ["W"]] = Ok scenario_after_two_ticks ∧
   water_total scenario_after_two_ticks = 1 ∧
   get_cell (planet scenario_after_two_ticks) (0, 0) = Ok EMPTY ∧
   state <$> rovers scenario_after_two_ticks = [EXPLORING] ∧
   location <$> rovers scenario_after_two_ticks = [(0, 0)]).
Proof.
  assert (cardinal "N") as HN by repeat constructor.
  assert (cardinal "W") as HW by repeat constructor.
  split; [exact HN |]. split; [exact HW |].
  apply (single_water_cell_scenario "N" "W" HN HW).
Defined.

(** C9.  The code departs from the scenario, by the omission in
    [Rover.__init__] that C1 meets: the rover starts Exploring, not
    Gathering, and after exactly one tick the water total is 0, the cell
    is still Water and the rover is Gathering.  From the start the
    scenario describes, the same fleet with its rover Gathering, one tick
    of the code gives what the scenario says: water total 1, the cell
    Empty, the rover Exploring at (0, 0). *)
Lemma single_water_cell_first_tick :
  Fleet_init (planet_1x1 WATER) 1 0 = Ok scenario_start ∧
  state <$> rovers scenario_start = [EXPLORING] ∧
  tick scenario_start ["N"] = Ok scenario_after_one_tick ∧
  water_total scenario_after_one_tick = 0 ∧
  grid (planet scenario_after_one_tick) = [[WATER]] ∧
  state <$> rovers scenario_after_one_tick = [GATHERING] ∧
  tick (mkFleet (planet_1x1 WATER)
          [set_state (Rover_init 1 0 0) GATHERING] 0 0 0) ["N"] =
    Ok scenario_after_two_ticks ∧
  water_total scenario_after_two_ticks = 1 ∧
  grid (planet scenario_after_two_ticks) = [[EMPTY]] ∧
  state <$> rovers scenario_after_two_ticks = [EXPLORING] ∧
  location <$> rovers scenario_after_two_ticks = [(0, 0)].
Proof. split_and!; vm_compute; reflexivity. Qed.

(** ** Construction of a planet *)




(** A sampler that returns the same 1x1 grid whatever it is asked. *)
Example Planet_init_example :
  let choice := λ (_ : list CellType) (_ : Z * Z) (ws : list float) (g : list float),
                  Ok ([[EMPTY]], ws) in
  Planet_init (λ _, []) choice "P" 1 1 0.5 0.5 0.5 0 None [] =
    Raise (ValueError "Total probability cannot exceed 1.0") ∧
  Planet_init (λ _, []) choice "P" 1 1 0.5 0.25 0.125 0.125 None [] =
    Ok (planet_1x1 EMPTY, [0; 0.5; 0.25; 0.125; 0.125]%float) ∧
  Planet_init (λ _, []) choice "P" 1 1 0.5 0.25 0.125 0 (Some 42) [] =
    Ok (planet_1x1 EMPTY, [0.125; 0.5; 0.25; 0.125; 0]%float).
Proof. split_and!; reflexivity. Qed.

(** ** Further properties of a fleet run *)

(** X1.  After any turns of a fleet built on a well-formed planet, the
    counter [lost_rovers] is the number of rovers of the fleet whose state
    is Lost: each rover is counted once, on the turn that loses it. *)
Theorem lost_rovers_counts_lost
    (p : Planet) (num_rovers distance : Z) (turns : list (nat * string)) :
  wf_planet p → 0 < num_rovers →
  Forall (valid_turn (Z.to_nat num_rovers)) turns →
  ∃ f0 f,
    Fleet_init p num_rovers distance = Ok f0 ∧ run_turns f0 turns = Ok f ∧
    lost_rovers f = lost_count (rovers f).
Proof.
  intros Hwf Hn Hturns.
  destruct (Fleet_init_inv p num_rovers distance Hwf Hn)
    as (f0 & Hinit & Hinv & Hlen).
  rewrite <- Hlen in Hturns.
  destruct (run_turns_inv p f0 turns Hinv Hturns)
    as (f & Hrun & (_ & _ & _ & Hlost & _) & _).
  by exists f0, f.
Qed.

Lemma lost_rovers_counts_lost_witness :
  wf_planet (planet_2x1 ACCIDENT EMPTY) ∧ 0 < 2 ∧
  Forall (valid_turn (Z.to_nat 2)) [(1, "E"); (0, "N"); (1, "N")]%nat ∧
  ∃ f0 f,
    Fleet_init (planet_2x1 ACCIDENT EMPTY) 2 0 = Ok f0 ∧
    run_turns f0 [(1, "E"); (0, "N"); (1, "N")]%nat = Ok f ∧
    lost_rovers f = lost_count (rovers f).
Proof.
  assert (Forall (valid_turn (Z.to_nat 2))
            [(1, "E"); (0, "N"); (1, "N")]%nat) as Hturns
    by repeat constructor.
  split; [apply wf_planet_2x1 |]. split; [lia |]. split; [exact Hturns |].
  apply (lost_rovers_counts_lost (planet_2x1 ACCIDENT EMPTY) 2 0
           [(1, "E"); (0, "N"); (1, "N")]%nat
           (wf_planet_2x1 _ _) ltac:(lia) Hturns).
Defined.

(** In the run of the witness above both rovers start Exploring, one of
    them on the accident cell; the other drives onto that cell, and the
    first is lost when its move wraps back onto it. *)
Example lost_rovers_example :
  ∃ f0 f,
    Fleet_init (planet_2x1 ACCIDENT EMPTY) 2 0 = Ok f0 ∧
    run_turns f0 [(1, "E"); (0, "N"); (1, "N")]%nat = Ok f ∧
    lost_rovers f = 2 ∧ state <$> rovers f = [LOST; LOST] ∧
    state <$> rovers f0 = [EXPLORING; EXPLORING].
Proof.
  eexists _, _. split; [reflexivity |].
  split; [vm_compute; reflexivity |]. split_and!; reflexivity.
Qed.

(** X2.  A fleet run never resizes the grid and only takes resources out
    of it: after any turns, every cell is as it was when the fleet was
    built, or held Water or Mineral then and is Empty now.  Obstacle and
    accident cells in particular never change. *)
Theorem grid_only_loses_resources
    (p : Planet) (num_rovers distance : Z) (turns : list (nat * string)) :
  wf_planet p → 0 < num_rovers →
  Forall (valid_turn (Z.to_nat num_rovers)) turns →
  ∃ f0 f,
    Fleet_init p num_rovers distance = Ok f0 ∧ run_turns f0 turns = Ok f ∧
    width (planet f) = width p ∧ height (planet f) = height p ∧
    ∀ pos c, get_cell p pos = Ok c →
      get_cell (planet f) pos = Ok c ∨
      (is_resource c = true ∧ get_cell (planet f) pos = Ok EMPTY).
Proof.
  intros Hwf Hn Hturns.
  destruct (Fleet_init_inv p num_rovers distance Hwf Hn)
    as (f0 & Hinit & Hinv & Hlen).
  rewrite <- Hlen in Hturns.
  destruct (run_turns_inv p f0 turns Hinv Hturns)
    as (f & Hrun & (_ & _ & _ & _ & Hev) & _).
  exists f0, f. split; [done |]. split; [done |]. exact Hev.
Qed.

Lemma grid_only_loses_resources_witness :
  wf_planet (planet_2x1 MINERAL OBSTACLE) ∧ 0 < 1 ∧
  Forall (valid_turn (Z.to_nat 1)) [(0, "N"); (0, "E"); (0, "S")]%nat ∧
  ∃ f0 f,
    Fleet_init (planet_2x1 MINERAL OBSTACLE) 1 0 = Ok f0 ∧
    run_turns f0 [(0, "N"); (0, "E"); (0, "S")]%nat = Ok f ∧
    width (planet f) = width (planet_2x1 MINERAL OBSTACLE) ∧
    height (planet f) = height (planet_2x1 MINERAL OBSTACLE) ∧
    ∀ pos c, get_cell (planet_2x1 MINERAL OBSTACLE) pos = Ok c →
      get_cell (planet f) pos = Ok c ∨
      (is_resource c = true ∧ get_cell (planet f) pos = Ok EMPTY).
Proof.
  assert (Forall (valid_turn (Z.to_nat 1))
            [(0, "N"); (0, "E"); (0, "S")]%nat) as Hturns
    by repeat constructor.
  split; [apply wf_planet_2x1 |]. split; [lia |]. split; [exact Hturns |].
  apply (grid_only_loses_resources (planet_2x1 MINERAL OBSTACLE) 1 0
           [(0, "N"); (0, "E"); (0, "S")]%nat
           (wf_planet_2x1 _ _) ltac:(lia) Hturns).
Defined.

(** ** Further properties of the grid and of the rover *)

Lemma not_cardinal_movements direction :
  ¬ cardinal direction → movements !! direction = None.
Proof.
  unfold cardinal, movements. rewrite !elem_of_cons, elem_of_nil.
  intros Hn. rewrite !lookup_insert_ne by (intros <-; tauto).
  apply lookup_singleton_ne. intros <-. tauto.
Qed.

(** X3.  When the direction is not one of the four keys "N", "S", "E",
    "W", [move] raises [KeyError] with that token, whatever the planet and
    the rover: the lookup comes first.  With one of the four keys, on a
    well-formed planet, it returns. *)
Theorem move_raises_on_unknown_direction
    (p : Planet) (r : Rover) (direction : string) :
  (¬ cardinal direction → move p r direction = Raise (KeyError direction)) ∧
  (wf_planet p → cardinal direction →
   ∃ r' b, move p r direction = Ok (r', b)).
Proof.
  split.
  - intros Hdir. unfold move, dict_get.
    by rewrite (not_cardinal_movements direction Hdir).
  - intros Hwf Hdir.
    destruct (move_total p r direction Hwf Hdir) as (r' & b & Hm & _).
    by exists r', b.
Qed.

(** On a planet with no cell at all the unknown key is still what is
    reported. *)
Lemma move_raises_on_unknown_direction_witness :
  move (mkPlanet "P" 0 0 []) (Rover_init 1 0 0) "North" =
    Raise (KeyError "North") ∧
  ∃ r' b, move (planet_2x1 EMPTY WATER) (Rover_init 1 0 0) "N" = Ok (r', b).
Proof.
  split.
  - apply (proj1 (move_raises_on_unknown_direction (mkPlanet "P" 0 0 [])
                    (Rover_init 1 0 0) "North")).
    unfold cardinal. rewrite !elem_of_cons, elem_of_nil.
    intros [? | [? | [? | [? | []]]]]; done.
  - apply (proj2 (move_raises_on_unknown_direction (planet_2x1 EMPTY WATER)
                    (Rover_init 1 0 0) "N")).
    + apply wf_planet_2x1.
    + unfold cardinal. rewrite !elem_of_cons. tauto.
Defined.

(** The docstring of [move] names the directions 'North', 'South', 'East'
    and 'West'; the keys are the initials, and the full names raise. *)
Example move_full_name_raises :
  move (planet_2x1 EMPTY WATER) (Rover_init 1 0 0) "North" =
    Raise (KeyError "North") ∧
  move (planet_2x1 EMPTY WATER) (Rover_init 1 0 0) "n" =
    Raise (KeyError "n") ∧
  move (planet_2x1 EMPTY WATER) (Rover_init 1 0 0) "" = Raise (KeyError "").
Proof. split_and!; reflexivity. Qed.

Lemma opposite_movements d d' :
  (d, d') ∈ opposite_directions →
  ∃ v v', movements !! d = Some v ∧ movements !! d' = Some v' ∧
          v.1 + v'.1 = 0 ∧ v.2 + v'.2 = 0.
Proof.
  unfold opposite_directions. rewrite !elem_of_cons, elem_of_nil.
  intros [[= -> ->] | [[= -> ->] | [[= -> ->] | [[= -> ->] | []]]]];
    eexists _, _; split_and!; reflexivity.
Qed.

(** A cell of the grid is off the two ends of the int64 range. *)
Lemma step_in_range_in_grid p r :
  int64_shape p →
  0 ≤ (location r).1 < width p → 0 ≤ (location r).2 < height p →
  step_in_range r.
Proof. unfold int64_shape, step_in_range. lia. Qed.

(** X4.  For a rover whose coordinates are off the two ends of the int64
    range, on a well-formed planet whose axes are shorter than 2^63: going
    one step and then one step in the opposite direction leads back to the
    cell the rover started from, wrapped into the grid.  After a
    successful [move], the [move] in the opposite direction lands on the
    starting cell and sets the state that cell commands -- unless the
    rover had been placed on an Obstacle, in which case the way back is
    blocked and the rover stays where the first step took it. *)
Theorem move_there_and_back
    (p : Planet) (r r1 : Rover) (d d' : string) :
  wf_planet p → int64_shape p → step_in_range r →
  (d, d') ∈ opposite_directions →
  move p r d = Ok (r1, true) →
  ∃ c, get_cell p (location r) = Ok c ∧
    move p r1 d' =
      if decide (c = OBSTACLE) then Ok (r1, false)
      else Ok (set_state (set_location r (wrap p (location r)))
                 (state_of_cell c), true).
Proof.
  intros Hwf Hshape Hr Hopp Hmove. pose proof Hwf as (Hw & Hh & _).
  destruct (opposite_movements d d' Hopp) as (v & v' & Hv & Hv' & Hx & Hy).
  destruct (get_cell_total p (new_location p r v) Hwf) as [c1 Hc1].
  rewrite (move_unfold p r d v c1 Hwf Hv Hc1) in Hmove.
  case_decide; [done |]. injection Hmove as <-.
  destruct (get_cell_total p (location r) Hwf) as [c Hc].
  exists c. split; [done |].
  rewrite (new_location_candidate p r d v Hr Hv).
  set (r1 := set_state _ _).
  assert (step_in_range r1) as Hr1.
  { apply (step_in_range_in_grid p); [done | |]; unfold r1; simpl.
    - apply Z.mod_pos_bound; lia.
    - apply Z.mod_pos_bound; lia. }
  assert (new_location p r1 v' = wrap p (location r)) as Hback.
  { rewrite (new_location_candidate p r1 d' v' Hr1 Hv').
    unfold candidate, wrap, r1; simpl.
    rewrite !Z.add_mod_idemp_l by lia.
    f_equal; f_equal; lia. }
  rewrite (move_unfold p r1 d' v' c Hwf Hv'); rewrite Hback.
  - done.
  - by rewrite get_cell_wrap.
Qed.

Lemma move_there_and_back_witness :
  wf_planet (planet_2x1 EMPTY WATER) ∧
  int64_shape (planet_2x1 EMPTY WATER) ∧
  step_in_range (Rover_init 1 2 0) ∧
  ("E", "W") ∈ opposite_directions ∧
  move (planet_2x1 EMPTY WATER) (Rover_init 1 2 0) "E" =
    Ok (set_state (set_location (Rover_init 1 2 0) (1, 0)) GATHERING,
        true) ∧
  ∃ c, get_cell (planet_2x1 EMPTY WATER) (location (Rover_init 1 2 0)) =
         Ok c ∧
    move (planet_2x1 EMPTY WATER)
      (set_state (set_location (Rover_init 1 2 0) (1, 0)) GATHERING) "W" =
      if decide (c = OBSTACLE)
      then Ok (set_state (set_location (Rover_init 1 2 0) (1, 0)) GATHERING,
               false)
      else Ok (set_state
                 (set_location (Rover_init 1 2 0)
                    (wrap (planet_2x1 EMPTY WATER)
                       (location (Rover_init 1 2 0))))
                 (state_of_cell c), true).
Proof.
  assert (("E", "W") ∈ opposite_directions) as Hopp
    by (unfold opposite_directions; rewrite !elem_of_cons; tauto).
  assert (move (planet_2x1 EMPTY WATER) (Rover_init 1 2 0) "E" =
            Ok (set_state (set_location (Rover_init 1 2 0) (1, 0)) GATHERING,
                true)) as Hmove by (vm_compute; reflexivity).
  assert (int64_shape (planet_2x1 EMPTY WATER)) as Hshape
    by (unfold int64_shape; simpl; lia).
  assert (step_in_range (Rover_init 1 2 0)) as Hr
    by (unfold step_in_range; simpl; lia).
  split; [apply wf_planet_2x1 |]. split; [exact Hshape |].
  split; [exact Hr |]. split; [exact Hopp |].
  split; [exact Hmove |].
  apply (move_there_and_back (planet_2x1 EMPTY WATER) (Rover_init 1 2 0) _
           "E" "W" (wf_planet_2x1 _ _) Hshape Hr Hopp Hmove).
Defined.

(** At the end of the int64 range the way back leads elsewhere: from
    x = 2^63 - 1, which is column 1 of three, the step East wraps to
    column 1 and the step West then leads to column 0. *)
Example move_back_from_the_int64_bound :
  wrap (planet_3x1 EMPTY EMPTY EMPTY)
    (location (Rover_init 1 (2 ^ 63 - 1) 0)) = (1, 0) ∧
  move (planet_3x1 EMPTY EMPTY EMPTY) (Rover_init 1 (2 ^ 63 - 1) 0) "E" =
    Ok (set_location (Rover_init 1 (2 ^ 63 - 1) 0) (1, 0), true) ∧
  move (planet_3x1 EMPTY EMPTY EMPTY)
    (set_location (Rover_init 1 (2 ^ 63 - 1) 0) (1, 0)) "W" =
    Ok (set_location (Rover_init 1 (2 ^ 63 - 1) 0) (0, 0), true).
Proof. split_and!; vm_compute; reflexivity. Qed.

(** A rover placed on an Obstacle can leave it and cannot come back. *)
Example move_back_blocked :
  move (planet_2x1 OBSTACLE EMPTY) (Rover_init 1 0 0) "E" =
    Ok (set_location (Rover_init 1 0 0) (1, 0), true) ∧
  move (planet_2x1 OBSTACLE EMPTY) (set_location (Rover_init 1 0 0) (1, 0))
    "W" = Ok (set_location (Rover_init 1 0 0) (1, 0), false).
Proof. split; reflexivity. Qed.

Lemma gather_no_resource p r c :
  get_cell p (location r) = Ok c → is_resource c = false →
  gather p r = Ok (p, r).
Proof. intros Hc Hres. unfold gather. rewrite Hc. by destruct c. Qed.

(** X5.  [gather] takes a cell at most once: on a well-formed planet a
    second [gather] right after the first returns the planet and the
    rover exactly as the first left them, whatever the cell held. *)
Theorem gather_twice_is_gather_once (p : Planet) (r : Rover) :
  wf_planet p → rover_keys r →
  ∃ p1 r1, gather p r = Ok (p1, r1) ∧ gather p1 r1 = Ok (p1, r1).
Proof.
  intros Hwf Hkeys. destruct (get_cell_total p (location r) Hwf) as [c Hc].
  rewrite (gather_unfold p r c Hwf Hkeys Hc).
  destruct (resource_key c) as [key|] eqn:Hkey.
  - eexists _, _. split; [reflexivity |].
    apply (gather_no_resource _ _ EMPTY); [| done].
    by apply get_cell_cleared_eq.
  - exists p, r. split; [done |].
    apply (gather_no_resource _ _ c); [done | by destruct c].
Qed.

Lemma gather_twice_is_gather_once_witness :
  wf_planet (planet_1x1 MINERAL) ∧ rover_keys (Rover_init 1 0 0) ∧
  ∃ p1 r1, gather (planet_1x1 MINERAL) (Rover_init 1 0 0) = Ok (p1, r1) ∧
           gather p1 r1 = Ok (p1, r1).
Proof.
  split; [apply wf_planet_1x1 |]. split; [apply rover_keys_init |].
  apply (gather_twice_is_gather_once (planet_1x1 MINERAL) (Rover_init 1 0 0)
           (wf_planet_1x1 _) (rover_keys_init _ _ _)).
Defined.

Lemma empty_cell_same_wrap p pos pos' :
  wf_planet p → wrap p pos = wrap p pos' →
  empty_cell p pos = empty_cell p pos'.
Proof.
  intros Hwf Heq.
  destruct (get_cell_total p pos Hwf) as [c Hc].
  assert (get_cell p pos' = Ok c) as Hc'
    by (by rewrite <- (get_cell_wrap p pos'), <- Heq, get_cell_wrap).
  rewrite (empty_cell_unfold p pos c Hwf Hc),
    (empty_cell_unfold p pos' c Hwf Hc').
  assert (wrap_index p pos = wrap_index p pos') as ->; [| done].
  unfold wrap in Heq. unfold wrap_index. by injection Heq as -> ->.
Qed.

(** X6.  [empty_cell] is toroidal like [get_cell]: on a well-formed
    planet it returns, and a position shifted by any multiples of the
    width and of the height, or reduced modulo them, clears the same cell
    and returns the same planet and flag. *)
Theorem empty_cell_toroidal (p : Planet) (x y : Z) :
  wf_planet p →
  (∃ p' b, empty_cell p (x, y) = Ok (p', b)) ∧
  empty_cell p (x `mod` width p, y `mod` height p) = empty_cell p (x, y) ∧
  ∀ k l, empty_cell p (x + k * width p, y + l * height p) =
           empty_cell p (x, y).
Proof.
  intros Hwf. pose proof Hwf as (Hw & Hh & _). split_and!.
  - destruct (get_cell_total p (x, y) Hwf) as [c Hc].
    rewrite (empty_cell_unfold p (x, y) c Hwf Hc).
    destruct (is_resource c); by eexists _, _.
  - apply empty_cell_same_wrap; [done |]. unfold wrap; simpl.
    by rewrite !Z.mod_mod by lia.
  - intros k l. apply empty_cell_same_wrap; [done |]. unfold wrap; simpl.
    by rewrite !Z.mod_add by lia.
Qed.

Lemma empty_cell_toroidal_witness :
  wf_planet (planet_2x1 EMPTY WATER) ∧
  (∃ p' b, empty_cell (planet_2x1 EMPTY WATER) (-1, 5) = Ok (p', b)) ∧
  empty_cell (planet_2x1 EMPTY WATER)
    ((-1) `mod` width (planet_2x1 EMPTY WATER),
     5 `mod` height (planet_2x1 EMPTY WATER)) =
    empty_cell (planet_2x1 EMPTY WATER) (-1, 5) ∧
  ∀ k l, empty_cell (planet_2x1 EMPTY WATER)
           (-1 + k * width (planet_2x1 EMPTY WATER),
            5 + l * height (planet_2x1 EMPTY WATER)) =
           empty_cell (planet_2x1 EMPTY WATER) (-1, 5).
Proof.
  split; [apply wf_planet_2x1 |].
  apply (empty_cell_toroidal (planet_2x1 EMPTY WATER) (-1) 5
           (wf_planet_2x1 _ _)).
Defined.

Example empty_cell_negative_position :
  empty_cell (planet_2x1 EMPTY WATER) (-1, 5) =
    Ok (planet_2x1 EMPTY EMPTY, true).
Proof. reflexivity. Qed.

(** X7.  [empty_cell] takes exactly one unit out of the grid or none: when
    it returns True the number of cells of the kind it cleared drops by
    one and the number of Empty cells rises by one; when it returns False
    the planet is unchanged.  The numbers of Obstacle and of Accident
    cells never change, nor the number of cells of the other resource. *)
Theorem empty_cell_takes_one_unit (p : Planet) (pos : Z * Z) :
  wf_planet p →
  ∃ c p' b,
    get_cell p pos = Ok c ∧ empty_cell p pos = Ok (p', b) ∧
    b = is_resource c ∧ (b = false → p' = p) ∧
    count_cells WATER (grid p') =
      count_cells WATER (grid p) - (if decide (c = WATER) then 1 else 0) ∧
    count_cells MINERAL (grid p') =
      count_cells MINERAL (grid p) -
      (if decide (c = MINERAL) then 1 else 0) ∧
    count_cells EMPTY (grid p') =
      count_cells EMPTY (grid p) + (if b then 1 else 0) ∧
    count_cells OBSTACLE (grid p') = count_cells OBSTACLE (grid p) ∧
    count_cells ACCIDENT (grid p') = count_cells ACCIDENT (grid p).
Proof.
  intros Hwf. destruct (get_cell_total p pos Hwf) as [c Hc].
  exists c. rewrite (empty_cell_unfold p pos c Hwf Hc).
  pose proof (proj1 (get_cell_cell_at _ _ _ Hwf) Hc) as Hat.
  destruct (is_resource c) eqn:Hres.
  - eexists _, true. split; [done |]. split; [reflexivity |].
    split; [done |]. split; [done |]. cbn [grid set_grid].
    rewrite !(count_cells_clear_at _ _ _ _ c Hat). unfold same_kind.
    destruct c; try done; split_and!; repeat case_decide; done || lia.
  - exists p, false. split_and!; try done;
      destruct c; try done; repeat case_decide; done || lia.
Qed.

Lemma empty_cell_takes_one_unit_witness :
  wf_planet (planet_2x1 MINERAL WATER) ∧
  ∃ c p' b,
    get_cell (planet_2x1 MINERAL WATER) (1, 0) = Ok c ∧
    empty_cell (planet_2x1 MINERAL WATER) (1, 0) = Ok (p', b) ∧
    b = is_resource c ∧ (b = false → p' = planet_2x1 MINERAL WATER) ∧
    count_cells WATER (grid p') =
      count_cells WATER (grid (planet_2x1 MINERAL WATER)) -
      (if decide (c = WATER) then 1 else 0) ∧
    count_cells MINERAL (grid p') =
      count_cells MINERAL (grid (planet_2x1 MINERAL WATER)) -
      (if decide (c = MINERAL) then 1 else 0) ∧
    count_cells EMPTY (grid p') =
      count_cells EMPTY (grid (planet_2x1 MINERAL WATER)) +
      (if b then 1 else 0) ∧
    count_cells OBSTACLE (grid p') =
      count_cells OBSTACLE (grid (planet_2x1 MINERAL WATER)) ∧
    count_cells ACCIDENT (grid p') =
      count_cells ACCIDENT (grid (planet_2x1 MINERAL WATER)).
Proof.
  split; [apply wf_planet_2x1 |].
  apply (empty_cell_takes_one_unit (planet_2x1 MINERAL WATER) (1, 0)
           (wf_planet_2x1 _ _)).
Defined.

(** ** Further properties of a fleet *)

Lemma rover_behavior_lost f i direction r :
  rovers f !! i = Some r → state r = LOST →
  rover_behavior f i direction = Ok f.
Proof.
  intros Hr Hlost. unfold rover_behavior. rewrite Hr.
  cbn [mbind result_bind lookup_or_IndexError]. by case_decide.
Qed.

(** The gathering block, by what the rover stands on: it books and clears
    a resource cell when the rover is Gathering, and changes nothing
    otherwise. *)
Lemma gather_block_cases f r :
  wf_planet (planet f) → rover_keys r →
  ∃ c f1 r1,
    get_cell (planet f) (location r) = Ok c ∧
    gather_block f r = Ok (f1, r1) ∧
    rovers f1 = rovers f ∧ lost_rovers f1 = lost_rovers f ∧
    rover_id r1 = rover_id r ∧ state r1 = state r ∧
    location r1 = location r ∧
    if decide (state r = GATHERING ∧ is_resource c = true) then
      planet f1 = cleared (planet f) (location r) ∧
      water_total f1 = water_total f + same_kind c WATER ∧
      mineral_total f1 = mineral_total f + same_kind c MINERAL ∧
      load_of "WATER" r1 = load_of "WATER" r + same_kind c WATER ∧
      load_of "MINERAL" r1 = load_of "MINERAL" r + same_kind c MINERAL ∧
      findings_of "WATER" r1 =
        findings_of "WATER" r ++
        (if decide (c = WATER) then [location r] else []) ∧
      findings_of "MINERAL" r1 =
        findings_of "MINERAL" r ++
        (if decide (c = MINERAL) then [location r] else [])
    else
      planet f1 = planet f ∧ water_total f1 = water_total f ∧
      mineral_total f1 = mineral_total f ∧ r1 = r.
Proof.
  intros Hwf Hkeys.
  destruct (get_cell_total (planet f) (location r) Hwf) as [c Hc].
  exists c. unfold gather_block.
  destruct (decide (state r = GATHERING ∧ is_resource c = true))
    as [[Hstate Hres] | Hno].
  - rewrite (decide_True (P := state r = GATHERING)) by done.
    rewrite Hc. cbn [mbind result_bind].
    rewrite (gather_unfold (planet f) r c Hwf Hkeys Hc).
    destruct c; try done; cbn [resource_key];
      cbn [mbind result_bind planet set_planet location];
      rewrite get_cell_cleared_eq by done; cbn [mbind result_bind];
      rewrite (decide_True (P := _ ≠ EMPTY)) by done;
      eexists _, _; (split; [done |]); (split; [reflexivity |]);
      unfold load_of, findings_of, same_kind; simpl;
      rewrite ?lookup_insert_eq, ?lookup_insert_ne by done; simpl;
      rewrite ?app_nil_r; split_and!; done || lia.
  - destruct (decide (state r = GATHERING)) as [Hstate | Hstate];
      [| exists f, r; by split_and!].
    assert (is_resource c = false) as Hres
      by (destruct (is_resource c); [exfalso; by apply Hno | done]).
    assert (resource_key c = None) as Hkey by by destruct c.
    rewrite Hc. cbn [mbind result_bind].
    rewrite (gather_unfold (planet f) r c Hwf Hkeys Hc), Hkey.
    cbn [mbind result_bind planet set_planet]. rewrite Hc.
    cbn [mbind result_bind]. rewrite decide_False by (intros ?; done).
    eexists _, _. split; [done |]. split; [reflexivity |]. by split_and!.
Qed.

(** A turn of a rover that is not lost: the gathering block, then the
    move, then the count of the loss. *)
Lemma rover_behavior_turn f i direction r :
  wf_planet (planet f) → rover_keys r → rovers f !! i = Some r →
  state r ≠ LOST → cardinal direction →
  ∃ f1 r1 r2 b,
    gather_block f r = Ok (f1, r1) ∧
    move (planet f1) r1 direction = Ok (r2, b) ∧
    rover_behavior f i direction =
      Ok (set_rovers
            (if decide (state r2 = LOST)
             then set_lost_rovers f1 (lost_rovers f1 + 1) else f1)
            (<[i := r2]> (rovers f))) ∧
    wf_planet (planet f1) ∧
    load r2 = load r1 ∧ findings_locations r2 = findings_locations r1 ∧
    rover_id r2 = rover_id r1.
Proof.
  intros Hwf Hkeys Hr Hlost Hdir.
  destruct (gather_block_spec f r Hwf Hkeys)
    as (f1 & r1 & Hblock & Hwf1 & _ & Hrovers & _).
  destruct (move_total (planet f1) r1 direction Hwf1 Hdir)
    as (r2 & b & Hmove & Hload & Hlog & Hid).
  exists f1, r1, r2, b. split; [done |]. split; [done |].
  split; [| done].
  unfold rover_behavior, rover_behavior_body. rewrite Hr.
  cbn [mbind result_bind lookup_or_IndexError].
  rewrite decide_False by done. rewrite Hblock. cbn [mbind result_bind].
  rewrite Hmove. cbn [mbind result_bind].
  by case_decide; cbn [rovers set_lost_rovers]; rewrite Hrovers.
Qed.

(** Induction over the turns of a run: a property of fleets that every
    turn keeps holds after any valid turns. *)
Lemma run_turns_preserves (P : Fleet → Prop) p0 f turns :
  (∀ f i d f', fleet_inv p0 f → P f → (i < length (rovers f))%nat →
               cardinal d → rover_behavior f i d = Ok f' → P f') →
  fleet_inv p0 f → P f →
  Forall (valid_turn (length (rovers f))) turns →
  ∃ f', run_turns f turns = Ok f' ∧ fleet_inv p0 f' ∧ P f'.
Proof.
  intros Hstep Hinv HP Hturns. revert f Hinv HP Hturns.
  induction turns as [| [i d] turns IH]; intros f Hinv HP Hturns.
  - by exists f.
  - apply Forall_cons in Hturns as [[Hi Hd] Hturns]. simpl in Hi, Hd.
    destruct (rover_behavior_inv p0 f i d Hinv Hi Hd)
      as (f1 & Hturn & Hinv1 & Hlen).
    simpl. rewrite Hturn. cbn [mbind result_bind].
    apply IH; [done | exact (Hstep f i d f1 Hinv HP Hi Hd Hturn) |].
    by rewrite Hlen.
Qed.

Lemma Fleet_init_rover_ids p num_rovers distance f :
  Fleet_init p num_rovers distance = Ok f →
  rover_id <$> rovers f = seqZ 1 num_rovers.
Proof.
  unfold Fleet_init. case_decide; [done |]. intros [= <-]. simpl.
  rewrite <- list_fmap_compose.
  replace (seqZ 1 num_rovers) with (Z.add 1 <$> seqZ 0 num_rovers)
    by by rewrite fmap_add_seqZ.
  apply list_fmap_ext. intros _ i _. simpl. lia.
Qed.

(** X8.  A fleet keeps its roster: after any turns it still holds the
    rovers it was built with, in the same order, with the identifiers
    1, 2, ..., N.  A rover that is lost is counted, and stays in the
    list. *)
Theorem fleet_keeps_its_roster
    (p : Planet) (num_rovers distance : Z) (turns : list (nat * string)) :
  wf_planet p → 0 < num_rovers →
  Forall (valid_turn (Z.to_nat num_rovers)) turns →
  ∃ f0 f,
    Fleet_init p num_rovers distance = Ok f0 ∧ run_turns f0 turns = Ok f ∧
    length (rovers f) = Z.to_nat num_rovers ∧
    rover_id <$> rovers f = seqZ 1 num_rovers.
Proof.
  intros Hwf Hn Hturns.
  destruct (Fleet_init_inv p num_rovers distance Hwf Hn)
    as (f0 & Hinit & Hinv & Hlen).
  rewrite <- Hlen in Hturns.
  destruct (run_turns_preserves
              (λ f, rover_id <$> rovers f = seqZ 1 num_rovers)
              p f0 turns) as (f & Hrun & _ & Hids); try done.
  - intros f i d f' (Hwf' & Hrs & _) Hids Hi Hd Hturn.
    destruct (lookup_lt_is_Some_2 _ _ Hi) as [r Hr].
    destruct (decide (state r = LOST)) as [Hlost | Hlost].
    { rewrite (rover_behavior_lost f i d r Hr Hlost) in Hturn.
      by injection Hturn as <-. }
    pose proof (Forall_lookup_1 _ _ _ _ Hrs Hr) as (Hkeys & _).
    destruct (gather_block_cases f r Hwf' Hkeys)
      as (c & f1' & r1' & _ & Hblock' & _ & _ & Hid1 & _).
    destruct (rover_behavior_turn f i d r Hwf' Hkeys Hr Hlost Hd)
      as (f1 & r1 & r2 & b & Hblock & _ & Hrun & _ & _ & _ & Hid2).
    rewrite Hblock in Hblock'. injection Hblock' as <- <-.
    rewrite Hrun in Hturn. injection Hturn as <-.
    cbn [rovers set_rovers]. rewrite list_fmap_insert.
    rewrite list_insert_id; [done |].
    rewrite list_lookup_fmap, Hr. simpl. congruence.
  - by eapply Fleet_init_rover_ids.
  - exists f0, f. split; [done |]. split; [done |]. split; [| done].
    rewrite <- (length_fmap rover_id), Hids. by rewrite length_seqZ.
Qed.

Lemma fleet_keeps_its_roster_witness :
  wf_planet (planet_2x1 ACCIDENT EMPTY) ∧ 0 < 2 ∧
  Forall (valid_turn (Z.to_nat 2)) [(1, "E"); (0, "N"); (1, "N")]%nat ∧
  ∃ f0 f,
    Fleet_init (planet_2x1 ACCIDENT EMPTY) 2 0 = Ok f0 ∧
    run_turns f0 [(1, "E"); (0, "N"); (1, "N")]%nat = Ok f ∧
    length (rovers f) = Z.to_nat 2 ∧
    rover_id <$> rovers f = seqZ 1 2.
Proof.
  assert (Forall (valid_turn (Z.to_nat 2))
            [(1, "E"); (0, "N"); (1, "N")]%nat) as Hturns
    by repeat constructor.
  split; [apply wf_planet_2x1 |]. split; [lia |]. split; [exact Hturns |].
  apply (fleet_keeps_its_roster (planet_2x1 ACCIDENT EMPTY) 2 0
           [(1, "E"); (0, "N"); (1, "N")]%nat
           (wf_planet_2x1 _ _) ltac:(lia) Hturns).
Defined.

Lemma spread_lt W N i : 0 < N → 0 < W → 0 ≤ i < N → 0 ≤ (i * W) `div` N < W.
Proof.
  intros HN HW Hi. split.
  - apply Z.div_pos; nia.
  - apply Z.div_lt_upper_bound; nia.
Qed.

Lemma spread_step W N i j :
  0 < N ≤ W → 0 ≤ i → i < j → (i * W) `div` N < (j * W) `div` N.
Proof.
  intros HN Hi Hij.
  assert ((i * W) `div` N + 1 ≤ (j * W) `div` N); [| lia].
  rewrite <- (Z.div_add (i * W) 1 N) by lia.
  apply Z.div_le_mono; nia.
Qed.

Lemma spread_inj W N i j :
  0 < N ≤ W → 0 ≤ i < N → 0 ≤ j < N →
  (i * W) `div` N = (j * W) `div` N → i = j.
Proof.
  intros HN Hi Hj Heq.
  destruct (Z.lt_trichotomy i j) as [Hlt | [-> | Hlt]]; [| done |].
  - pose proof (spread_step W N i j HN ltac:(lia) Hlt). lia.
  - pose proof (spread_step W N j i HN ltac:(lia) Hlt). lia.
Qed.

Lemma mod_shift_inj W D a b :
  0 ≤ a < W → 0 ≤ b < W → (a + D) `mod` W = (b + D) `mod` W → a = b.
Proof.
  intros Ha Hb Heq.
  pose proof (Z.div_mod (a + D) W ltac:(lia)) as Hqa.
  pose proof (Z.div_mod (b + D) W ltac:(lia)) as Hqb.
  rewrite Heq in Hqa.
  assert ((a + D) `div` W = (b + D) `div` W) by nia. nia.
Qed.

(** X9.  [Fleet.__init__] drops the rovers on different cells as long as
    there are no more rovers than columns, or no more rovers than rows:
    no two rovers of the new fleet wrap to the same cell of the grid,
    whatever the horizontal offset.  (With more rovers than both, rovers
    share cells: see the example below.) *)
Theorem fleet_starts_on_distinct_cells
    (p : Planet) (num_rovers distance : Z) :
  0 < num_rovers → num_rovers ≤ width p ∨ num_rovers ≤ height p →
  ∃ f, Fleet_init p num_rovers distance = Ok f ∧
       NoDup ((λ r, wrap p (location r)) <$> rovers f).
Proof.
  intros Hn Hroom.
  assert (∃ f, Fleet_init p num_rovers distance = Ok f) as [f Hf].
  { unfold Fleet_init. case_decide; [lia |]. by eexists. }
  exists f. split; [done |]. apply NoDup_alt. intros i j cell Hi Hj.
  rewrite list_lookup_fmap in Hi, Hj.
  destruct (rovers f !! i) as [ri|] eqn:Hri; [| done].
  destruct (rovers f !! j) as [rj|] eqn:Hrj; [| done].
  pose proof (lookup_lt_Some _ _ _ Hri) as Hilt.
  pose proof (lookup_lt_Some _ _ _ Hrj) as Hjlt.
  rewrite (length_rovers_Fleet_init _ _ _ _ Hf) in Hilt, Hjlt.
  rewrite (lookup_rovers_Fleet_init _ _ _ _ _ _ Hf Hri) in Hi.
  rewrite (lookup_rovers_Fleet_init _ _ _ _ _ _ Hf Hrj) in Hj.
  simpl in Hi, Hj. rewrite <- Hj in Hi. unfold wrap in Hi; simpl in Hi.
  injection Hi as Hx Hy.
  assert (Z.of_nat i = Z.of_nat j); [| lia].
  destruct Hroom as [Hw | Hh].
  - apply (spread_inj (width p) num_rovers); [lia | lia | lia |].
    apply (mod_shift_inj (width p) distance);
      [apply spread_lt; lia | apply spread_lt; lia | done].
  - apply (spread_inj (height p) num_rovers); [lia | lia | lia |].
    apply (mod_shift_inj (height p) 0);
      [apply spread_lt; lia | apply spread_lt; lia |].
    by rewrite !Z.add_0_r.
Qed.

Lemma fleet_starts_on_distinct_cells_witness :
  0 < 2 ∧
  (2 ≤ width (planet_2x1 EMPTY WATER) ∨
   2 ≤ height (planet_2x1 EMPTY WATER)) ∧
  ∃ f, Fleet_init (planet_2x1 EMPTY WATER) 2 1 = Ok f ∧
       NoDup ((λ r, wrap (planet_2x1 EMPTY WATER) (location r)) <$>
                rovers f).
Proof.
  assert (2 ≤ width (planet_2x1 EMPTY WATER) ∨
          2 ≤ height (planet_2x1 EMPTY WATER)) as Hroom
    by (left; simpl; lia).
  split; [lia |]. split; [exact Hroom |].
  apply (fleet_starts_on_distinct_cells (planet_2x1 EMPTY WATER) 2 1
           ltac:(lia) Hroom).
Defined.

(** Three rovers on two cells: the first two start on the same cell.  The
    offset the driver passes, the width over the number of rovers, puts
    the last rover at x = W, outside [0, W). *)
Example fleet_start_positions :
  (location <$>
     rovers (mkFleet (planet_2x1 EMPTY WATER)
               ((λ i, Rover_init (i + 1) ((i * 2) `div` 3 + 0)
                        ((i * 1) `div` 3)) <$> seqZ 0 3) 0 0 0)) =
    [(0, 0); (0, 0); (1, 0)] ∧
  Fleet_init (planet_2x1 EMPTY WATER) 2 1 =
    Ok (mkFleet (planet_2x1 EMPTY WATER)
          [Rover_init 1 1 0; Rover_init 2 2 0] 0 0 0).
Proof. split; reflexivity. Qed.

(** One turn never lowers a counter of the fleet, gathers at most one
    unit and loses at most one rover. *)
Lemma rover_behavior_rates p0 f i direction f' :
  fleet_inv p0 f → (i < length (rovers f))%nat → cardinal direction →
  rover_behavior f i direction = Ok f' →
  water_total f ≤ water_total f' ∧ mineral_total f ≤ mineral_total f' ∧
  lost_rovers f ≤ lost_rovers f' ≤ lost_rovers f + 1 ∧
  water_total f' + mineral_total f' ≤ water_total f + mineral_total f + 1.
Proof.
  intros (Hwf & Hrs & _) Hi Hdir Hturn.
  destruct (lookup_lt_is_Some_2 _ _ Hi) as [r Hr].
  destruct (decide (state r = LOST)) as [Hlost | Hlost].
  { rewrite (rover_behavior_lost f i direction r Hr Hlost) in Hturn.
    injection Hturn as <-. lia. }
  pose proof (Forall_lookup_1 _ _ _ _ Hrs Hr) as (Hkeys & _).
  destruct (gather_block_cases f r Hwf Hkeys)
    as (c & f1' & r1' & _ & Hblock' & _ & Hlr & _ & _ & _ & Hcase).
  destruct (rover_behavior_turn f i direction r Hwf Hkeys Hr Hlost Hdir)
    as (f1 & r1 & r2 & b & Hblock & _ & Hrun & _).
  rewrite Hblock in Hblock'. injection Hblock' as <- <-.
  rewrite Hrun in Hturn. injection Hturn as <-.
  assert (water_total f ≤ water_total f1 ∧
          mineral_total f ≤ mineral_total f1 ∧
          water_total f1 + mineral_total f1 ≤
            water_total f + mineral_total f + 1) as (? & ? & ?).
  { destruct (decide (state r = GATHERING ∧ is_resource c = true)).
    - destruct Hcase as (_ & -> & -> & _). unfold same_kind.
      destruct c; repeat case_decide; simplify_eq; lia.
    - destruct Hcase as (_ & -> & -> & _). lia. }
  case_decide; simpl; lia.
Qed.

Lemma run_turns_rates p0 f turns :
  fleet_inv p0 f → Forall (valid_turn (length (rovers f))) turns →
  ∃ f', run_turns f turns = Ok f' ∧ fleet_inv p0 f' ∧
    water_total f ≤ water_total f' ∧ mineral_total f ≤ mineral_total f' ∧
    lost_rovers f ≤ lost_rovers f' ≤ lost_rovers f + Z.of_nat (length turns) ∧
    water_total f' + mineral_total f' ≤
      water_total f + mineral_total f + Z.of_nat (length turns).
Proof.
  intros Hinv Hturns. revert f Hinv Hturns.
  induction turns as [| [i d] turns IH]; intros f Hinv Hturns.
  - exists f. simpl. split_and!; done || lia.
  - apply Forall_cons in Hturns as [[Hi Hd] Hturns]. simpl in Hi, Hd.
    destruct (rover_behavior_inv p0 f i d Hinv Hi Hd)
      as (f1 & Hturn & Hinv1 & Hlen).
    pose proof (rover_behavior_rates p0 f i d f1 Hinv Hi Hd Hturn)
      as (? & ? & ? & ?).
    rewrite <- Hlen in Hturns.
    destruct (IH f1 Hinv1 Hturns) as (f' & Hrun & Hinv' & ? & ? & ? & ?).
    exists f'. simpl. rewrite Hturn. cbn [mbind result_bind].
    split_and!; done || lia.
Qed.

(** X10.  The counters of a fleet only grow, and slowly: between any two
    points of a run the water total, the mineral total and the count of
    lost rovers do not decrease, each turn in between adds at most one
    unit to the resources gathered (water and mineral together) and at
    most one to the lost rovers. *)
Theorem fleet_counters_only_grow
    (p : Planet) (num_rovers distance : Z)
    (turns1 turns2 : list (nat * string)) :
  wf_planet p → 0 < num_rovers →
  Forall (valid_turn (Z.to_nat num_rovers)) (turns1 ++ turns2) →
  ∃ f0 f1 f2,
    Fleet_init p num_rovers distance = Ok f0 ∧
    run_turns f0 turns1 = Ok f1 ∧
    run_turns f0 (turns1 ++ turns2) = Ok f2 ∧
    water_total f1 ≤ water_total f2 ∧
    mineral_total f1 ≤ mineral_total f2 ∧
    lost_rovers f1 ≤ lost_rovers f2 ≤
      lost_rovers f1 + Z.of_nat (length turns2) ∧
    water_total f2 + mineral_total f2 ≤
      water_total f1 + mineral_total f1 + Z.of_nat (length turns2).
Proof.
  intros Hwf Hn Hturns. apply Forall_app in Hturns as [Hturns1 Hturns2].
  destruct (Fleet_init_inv p num_rovers distance Hwf Hn)
    as (f0 & Hinit & Hinv & Hlen).
  rewrite <- Hlen in Hturns1, Hturns2.
  destruct (run_turns_inv p f0 turns1 Hinv Hturns1)
    as (f1 & Hrun1 & Hinv1 & Hlen1).
  rewrite <- Hlen1 in Hturns2.
  destruct (run_turns_rates p f1 turns2 Hinv1 Hturns2)
    as (f2 & Hrun2 & _ & ? & ? & ? & ?).
  exists f0, f1, f2. rewrite run_turns_app, Hrun1.
  cbn [mbind result_bind]. split_and!; done || lia.
Qed.

Lemma fleet_counters_only_grow_witness :
  wf_planet (planet_2x1 MINERAL WATER) ∧ 0 < 2 ∧
  Forall (valid_turn (Z.to_nat 2))
    ([(0, "N"); (1, "N")] ++ [(0, "S"); (1, "S"); (0, "E")])%nat ∧
  ∃ f0 f1 f2,
    Fleet_init (planet_2x1 MINERAL WATER) 2 0 = Ok f0 ∧
    run_turns f0 [(0, "N"); (1, "N")]%nat = Ok f1 ∧
    run_turns f0
      ([(0, "N"); (1, "N")] ++ [(0, "S"); (1, "S"); (0, "E")])%nat =
      Ok f2 ∧
    water_total f1 ≤ water_total f2 ∧
    mineral_total f1 ≤ mineral_total f2 ∧
    lost_rovers f1 ≤ lost_rovers f2 ≤
      lost_rovers f1 +
      Z.of_nat (length [(0, "S"); (1, "S"); (0, "E")]%nat) ∧
    water_total f2 + mineral_total f2 ≤
      water_total f1 + mineral_total f1 +
      Z.of_nat (length [(0, "S"); (1, "S"); (0, "E")]%nat).
Proof.
  assert (Forall (valid_turn (Z.to_nat 2))
            ([(0, "N"); (1, "N")] ++ [(0, "S"); (1, "S"); (0, "E")])%nat)
    as Hturns by repeat constructor.
  split; [apply wf_planet_2x1 |]. split; [lia |]. split; [exact Hturns |].
  apply (fleet_counters_only_grow (planet_2x1 MINERAL WATER) 2 0
           [(0, "N"); (1, "N")]%nat [(0, "S"); (1, "S"); (0, "E")]%nat
           (wf_planet_2x1 _ _) ltac:(lia) Hturns).
Defined.

Lemma sum_with_bounds {A} (g : A → Z) (l : list A) :
  Forall (λ x, 0 ≤ g x ≤ 1) l →
  0 ≤ sum_with g l ≤ Z.of_nat (length l).
Proof.
  induction 1 as [| x l Hx _ IH]; unfold sum_with in *; simpl; lia.
Qed.

Lemma sum_with_nonneg {A} (g : A → Z) (l : list A) :
  Forall (λ x, 0 ≤ g x) l → 0 ≤ sum_with g l.
Proof.
  induction 1 as [| x l Hx _ IH]; unfold sum_with in *; simpl; lia.
Qed.

Lemma count_cells_nonneg c g : 0 ≤ count_cells c g.
Proof.
  unfold count_cells. apply sum_with_nonneg, Forall_true. intros row.
  unfold count_row. apply sum_with_nonneg, Forall_true. intros x.
  case_decide; lia.
Qed.

(** X11.  What a fleet reports is bounded by what there was: after any
    turns, the water total lies between 0 and the number of Water cells
    the grid held when the fleet was built, the mineral total between 0
    and the number of Mineral cells, and the count of lost rovers between
    0 and the number of rovers. *)
Theorem fleet_totals_bounded
    (p : Planet) (num_rovers distance : Z) (turns : list (nat * string)) :
  wf_planet p → 0 < num_rovers →
  Forall (valid_turn (Z.to_nat num_rovers)) turns →
  ∃ f0 f,
    Fleet_init p num_rovers distance = Ok f0 ∧ run_turns f0 turns = Ok f ∧
    0 ≤ water_total f ≤ count_cells WATER (grid p) ∧
    0 ≤ mineral_total f ≤ count_cells MINERAL (grid p) ∧
    0 ≤ lost_rovers f ≤ num_rovers.
Proof.
  intros Hwf Hn Hturns.
  destruct (Fleet_init_inv p num_rovers distance Hwf Hn)
    as (f0 & Hinit & Hinv & Hlen).
  rewrite <- Hlen in Hturns.
  destruct (run_turns_inv p f0 turns Hinv Hturns)
    as (f & Hrun & (_ & Hrs & (Hw & Hm & HcW & HcM) & Hlost & _) & Hlen').
  exists f0, f. split; [done |]. split; [done |].
  pose proof (count_cells_nonneg WATER (grid (planet f))).
  pose proof (count_cells_nonneg MINERAL (grid (planet f))).
  assert (0 ≤ sum_load "WATER" (rovers f) ∧
          0 ≤ sum_load "MINERAL" (rovers f)) as [? ?].
  { split; apply sum_with_nonneg; (eapply Forall_impl; [exact Hrs |]);
      intros r (_ & [HlW HlM] & _); simpl; lia. }
  assert (0 ≤ lost_count (rovers f) ≤ Z.of_nat (length (rovers f))).
  { apply sum_with_bounds, Forall_true. intros r. case_decide; lia. }
  split_and!; lia.
Qed.

Lemma fleet_totals_bounded_witness :
  wf_planet (planet_2x1 MINERAL WATER) ∧ 0 < 2 ∧
  Forall (valid_turn (Z.to_nat 2))
    [(0, "N"); (1, "N"); (0, "S"); (1, "S")]%nat ∧
  ∃ f0 f,
    Fleet_init (planet_2x1 MINERAL WATER) 2 0 = Ok f0 ∧
    run_turns f0 [(0, "N"); (1, "N"); (0, "S"); (1, "S")]%nat = Ok f ∧
    0 ≤ water_total f ≤ count_cells WATER (grid (planet_2x1 MINERAL WATER)) ∧
    0 ≤ mineral_total f ≤
      count_cells MINERAL (grid (planet_2x1 MINERAL WATER)) ∧
    0 ≤ lost_rovers f ≤ 2.
Proof.
  assert (Forall (valid_turn (Z.to_nat 2))
            [(0, "N"); (1, "N"); (0, "S"); (1, "S")]%nat) as Hturns
    by repeat constructor.
  split; [apply wf_planet_2x1 |]. split; [lia |]. split; [exact Hturns |].
  apply (fleet_totals_bounded (planet_2x1 MINERAL WATER) 2 0
           [(0, "N"); (1, "N"); (0, "S"); (1, "S")]%nat
           (wf_planet_2x1 _ _) ltac:(lia) Hturns).
Defined.

Lemma rover_keys_same_dicts r r' :
  load r' = load r → findings_locations r' = findings_locations r →
  rover_keys r → rover_keys r'.
Proof. unfold rover_keys. by intros -> ->. Qed.

(** The turns of the rovers from index [k] on, while they all are still
    Exploring: nothing is gathered. *)
Lemma run_turns_exploring ds : ∀ k f,
  wf_planet (planet f) → Forall rover_keys (rovers f) →
  (∀ j r, (k ≤ j)%nat → rovers f !! j = Some r → state r = EXPLORING) →
  (k + length ds ≤ length (rovers f))%nat → Forall cardinal ds →
  ∃ f', run_turns f (imap (λ i d, ((k + i)%nat, d)) ds) = Ok f' ∧
        planet f' = planet f ∧ water_total f' = water_total f ∧
        mineral_total f' = mineral_total f.
Proof.
  induction ds as [| d ds IH]; intros k f Hwf Hkeys Hexp Hlen Hds.
  - by exists f.
  - apply Forall_cons in Hds as [Hd Hds]. simpl in Hlen.
    destruct (lookup_lt_is_Some_2 (rovers f) k ltac:(lia)) as [r Hr].
    pose proof (Hexp k r ltac:(lia) Hr) as Hstate.
    pose proof (Forall_lookup_1 _ _ _ _ Hkeys Hr) as Hkr.
    destruct (gather_block_cases f r Hwf Hkr)
      as (c & f1' & r1' & _ & Hblock' & _ & _ & _ & _ & _ & Hcase).
    rewrite decide_False in Hcase by (intros [? _]; congruence).
    destruct Hcase as (Hp1 & Hw1 & Hm1 & Hr1). subst r1'.
    destruct (rover_behavior_turn f k d r Hwf Hkr Hr ltac:(congruence) Hd)
      as (f1 & r1 & r2 & b & Hblock & _ & Hrun & Hwf1 & Hl2 & Hf2 & _).
    rewrite Hblock in Hblock'. injection Hblock' as <- <-.
    set (f2 := set_rovers _ _) in Hrun.
    assert (planet f2 = planet f ∧ water_total f2 = water_total f ∧
            mineral_total f2 = mineral_total f ∧
            rovers f2 = <[k := r2]> (rovers f)) as (Hp2 & Hw2 & Hm2 & Hr2).
    { unfold f2. by case_decide. }
    destruct (IH (S k) f2) as (f' & Hrun' & Hp' & Hw' & Hm').
    + by rewrite Hp2.
    + rewrite Hr2. apply Forall_insert; [done |].
      by apply (rover_keys_same_dicts r1).
    + intros j r' Hj Hr'. rewrite Hr2 in Hr'.
      rewrite list_lookup_insert_ne in Hr' by lia.
      apply (Hexp j r'); [lia | done].
    + rewrite Hr2, length_insert. lia.
    + done.
    + exists f'. rewrite imap_cons. cbn [run_turns].
      rewrite Nat.add_0_r, Hrun. cbn [mbind result_bind].
      rewrite (imap_ext _ (λ i d, ((S k + i)%nat, d)));
        [| intros i x _; simpl; f_equal; lia].
      split; [done |]. split_and!; congruence.
Qed.

(** X12.  The first tick of a fleet never gathers: every rover starts
    Exploring, so whatever the planet, the number of rovers and the draws,
    after the first tick the grid is exactly as it was, and the water and
    mineral totals are 0 -- also for the rovers that were dropped on a
    resource cell. *)
Theorem first_tick_gathers_nothing
    (p : Planet) (num_rovers distance : Z) (directions : list string) :
  wf_planet p → 0 < num_rovers →
  valid_draws (Z.to_nat num_rovers) directions →
  ∃ f0 f1,
    Fleet_init p num_rovers distance = Ok f0 ∧
    tick f0 directions = Ok f1 ∧
    planet f1 = p ∧ water_total f1 = 0 ∧ mineral_total f1 = 0.
Proof.
  intros Hwf Hn [Hlen Hds].
  destruct (Fleet_init_inv p num_rovers distance Hwf Hn)
    as (f0 & Hinit & (_ & Hrs & _) & Hlen0).
  assert (planet f0 = p ∧ water_total f0 = 0 ∧ mineral_total f0 = 0)
    as (Hp0 & Hw0 & Hm0).
  { revert Hinit. unfold Fleet_init. case_decide; [done |].
    by intros [= <-]. }
  destruct (run_turns_exploring directions 0%nat f0)
    as (f1 & Hrun & Hp1 & Hw1 & Hm1).
  - by rewrite Hp0.
  - eapply Forall_impl; [exact Hrs |]. by intros r (? & _).
  - intros j r _ Hr.
    by rewrite (lookup_rovers_Fleet_init _ _ _ _ _ _ Hinit Hr).
  - rewrite Hlen0, Hlen. lia.
  - done.
  - exists f0, f1. split; [done |]. split; [exact Hrun |].
    split_and!; congruence.
Qed.

Lemma first_tick_gathers_nothing_witness :
  wf_planet (planet_2x1 MINERAL WATER) ∧ 0 < 2 ∧
  valid_draws (Z.to_nat 2) ["N"; "S"] ∧
  ∃ f0 f1,
    Fleet_init (planet_2x1 MINERAL WATER) 2 0 = Ok f0 ∧
    tick f0 ["N"; "S"] = Ok f1 ∧
    planet f1 = planet_2x1 MINERAL WATER ∧
    water_total f1 = 0 ∧ mineral_total f1 = 0.
Proof.
  assert (valid_draws (Z.to_nat 2) ["N"; "S"]) as Hds
    by repeat constructor.
  split; [apply wf_planet_2x1 |]. split; [lia |]. split; [exact Hds |].
  apply (first_tick_gathers_nothing (planet_2x1 MINERAL WATER) 2 0
           ["N"; "S"] (wf_planet_2x1 _ _) ltac:(lia) Hds).
Defined.

Lemma run_turns_all_lost f turns :
  Forall (λ r, state r = LOST) (rovers f) →
  Forall (λ t : nat * string, (t.1 < length (rovers f))%nat) turns →
  run_turns f turns = Ok f.
Proof.
  intros Hlost. induction 1 as [| [i d] turns Hi _ IH]; [done |].
  simpl in Hi. destruct (lookup_lt_is_Some_2 _ _ Hi) as [r Hr].
  simpl. rewrite (rover_behavior_lost f i d r Hr).
  - cbn [mbind result_bind]. exact IH.
  - exact (Forall_lookup_1 _ _ _ _ Hlost Hr).
Qed.

(** X13.  A fleet whose rovers are all lost stands still: any further
    ticks, whatever is drawn, return the fleet -- planet, rovers and
    counters -- exactly as it is.  The run does not stop early, it just
    does nothing. *)
Theorem all_lost_fleet_stands_still
    (f : Fleet) (draws : list (list string)) :
  Forall (λ r, state r = LOST) (rovers f) →
  Forall (λ ds, length ds = length (rovers f)) draws →
  run_ticks f draws = Ok f.
Proof.
  intros Hlost Hdraws. rewrite run_ticks_run_turns.
  apply run_turns_all_lost; [done |].
  apply Forall_concat, Forall_fmap.
  eapply Forall_impl; [exact Hdraws |]. intros ds Hlen. simpl.
  apply Forall_lookup. intros k [i d] Hk.
  rewrite list_lookup_imap in Hk.
  destruct (ds !! k) as [d'|] eqn:Hd; simplify_eq/=.
  rewrite <- Hlen. by eapply lookup_lt_Some.
Qed.

Lemma all_lost_fleet_stands_still_witness :
  Forall (λ r, state r = LOST)
    (rovers (mkFleet (planet_2x1 ACCIDENT EMPTY) [lost_rover] 1 0 0)) ∧
  Forall (λ ds, length ds =
                length (rovers (mkFleet (planet_2x1 ACCIDENT EMPTY)
                                  [lost_rover] 1 0 0)))
    [["E"]; ["up"]; ["W"]] ∧
  run_ticks (mkFleet (planet_2x1 ACCIDENT EMPTY) [lost_rover] 1 0 0)
    [["E"]; ["up"]; ["W"]] =
    Ok (mkFleet (planet_2x1 ACCIDENT EMPTY) [lost_rover] 1 0 0).
Proof.
  assert (Forall (λ r, state r = LOST)
            (rovers (mkFleet (planet_2x1 ACCIDENT EMPTY) [lost_rover] 1 0 0)))
    as Hlost by repeat constructor.
  assert (Forall (λ ds, length ds =
                        length (rovers (mkFleet (planet_2x1 ACCIDENT EMPTY)
                                          [lost_rover] 1 0 0)))
            [["E"]; ["up"]; ["W"]]) as Hdraws by repeat constructor.
  split; [exact Hlost |]. split; [exact Hdraws |].
  apply (all_lost_fleet_stands_still _ _ Hlost Hdraws).
Defined.

Lemma bind_insert_perm {A B} (g : A → list B) rs i r r2 extra :
  rs !! i = Some r → g r2 ≡ₚ extra ++ g r →
  (<[i := r2]> rs) ≫= g ≡ₚ extra ++ (rs ≫= g).
Proof.
  revert i. induction rs as [| a rs IH]; intros [| i] Hi Hg;
    simplify_eq/=.
  - by rewrite Hg, (assoc_L (++)).
  - rewrite (IH i Hi Hg), !(assoc_L (++)).
    by rewrite (Permutation_app_comm (g a) extra).
Qed.

(** What a turn of a rover that is not lost does to the logs of the
    fleet: nothing, or one more position -- the rover's, whose cell held
    a resource and is cleared. *)
Lemma rover_behavior_logs f i direction r f' :
  wf_planet (planet f) → rover_keys r → rovers f !! i = Some r →
  state r ≠ LOST → cardinal direction →
  rover_behavior f i direction = Ok f' →
  (planet f' = planet f ∧
   all_logged (rovers f') ≡ₚ all_logged (rovers f) ∧
   all_logged_kind "WATER" (rovers f') ≡ₚ
     all_logged_kind "WATER" (rovers f) ∧
   all_logged_kind "MINERAL" (rovers f') ≡ₚ
     all_logged_kind "MINERAL" (rovers f))
  ∨ (∃ c, is_resource c = true ∧
          get_cell (planet f) (location r) = Ok c ∧
          planet f' = cleared (planet f) (location r) ∧
          all_logged (rovers f') ≡ₚ location r :: all_logged (rovers f) ∧
          all_logged_kind "WATER" (rovers f') ≡ₚ
            (if decide (c = WATER) then [location r] else []) ++
            all_logged_kind "WATER" (rovers f) ∧
          all_logged_kind "MINERAL" (rovers f') ≡ₚ
            (if decide (c = MINERAL) then [location r] else []) ++
            all_logged_kind "MINERAL" (rovers f)).
Proof.
  intros Hwf Hkeys Hr Hlost Hdir Hturn.
  destruct (gather_block_cases f r Hwf Hkeys)
    as (c & f1' & r1' & Hc & Hblock' & _ & _ & _ & _ & _ & Hcase).
  destruct (rover_behavior_turn f i direction r Hwf Hkeys Hr Hlost Hdir)
    as (f1 & r1 & r2 & b & Hblock & _ & Hrun & _ & Hl2 & Hf2 & _).
  rewrite Hblock in Hblock'. injection Hblock' as <- <-.
  rewrite Hrun in Hturn. injection Hturn as <-.
  assert (∀ key, findings_of key r2 = findings_of key r1) as Hsame
    by (intros key; unfold findings_of; by rewrite Hf2).
  set (f2 := if decide (state r2 = LOST) then _ else _).
  assert (planet f2 = planet f1) as Hp2 by (unfold f2; by case_decide).
  cbn [planet rovers set_rovers]. rewrite Hp2.
  destruct (decide (state r = GATHERING ∧ is_resource c = true))
    as [[_ Hres] | _].
  - destruct Hcase as (Hp1 & _ & _ & _ & _ & HfW & HfM).
    right. exists c. split; [done |]. split; [done |]. split; [done |].
    unfold all_logged, all_logged_kind. split_and!.
    + apply (bind_insert_perm logged _ _ r _ [location r]); [done |].
      unfold logged. rewrite !Hsame, HfW, HfM.
      destruct c; try done; repeat case_decide; try done;
        rewrite ?app_nil_r; solve_Permutation.
    + apply (bind_insert_perm _ _ _ r); [done |].
      rewrite Hsame, HfW. apply Permutation_app_comm.
    + apply (bind_insert_perm _ _ _ r); [done |].
      rewrite Hsame, HfM. apply Permutation_app_comm.
  - destruct Hcase as (Hp1 & _ & _ & Hr1). subst r1.
    left. split; [done |]. unfold all_logged, all_logged_kind. split_and!.
    + apply (bind_insert_perm logged _ _ r _ []); [done |].
      unfold logged. by rewrite !Hsame.
    + apply (bind_insert_perm _ _ _ r _ []); [done |]. by rewrite Hsame.
    + apply (bind_insert_perm _ _ _ r _ []); [done |]. by rewrite Hsame.
Qed.

Lemma bind_nil_all {A B} (g : A → list B) rs :
  Forall (λ r, g r = []) rs → rs ≫= g = [].
Proof.
  induction 1 as [| r rs Hr _ IH]; [done |].
  by rewrite bind_cons, Hr, IH.
Qed.

Lemma Fleet_init_logs_empty p num_rovers distance f key :
  Fleet_init p num_rovers distance = Ok f →
  all_logged (rovers f) = [] ∧ all_logged_kind key (rovers f) = [].
Proof.
  unfold Fleet_init. case_decide; [done |]. intros [= <-]. simpl.
  split; apply bind_nil_all, Forall_fmap, Forall_true; intros i.
  - done.
  - unfold findings_of; simpl.
    destruct (decide (key = "WATER")) as [-> | ?]; [done |].
    destruct (decide (key = "MINERAL")) as [-> | ?]; [done |].
    rewrite lookup_insert_ne by done.
    by rewrite lookup_singleton_ne by done.
Qed.

(** The origin of a resource cell: what a cell of the current grid holds,
    if it is a resource, it held when the fleet was built. *)
Lemma cells_evolve_origin p0 p pos c :
  wf_planet p0 → cells_evolve p0 p → get_cell p pos = Ok c →
  is_resource c = true → get_cell p0 pos = Ok c.
Proof.
  intros Hwf0 (_ & _ & Hev) Hc Hres.
  destruct (get_cell_total p0 pos Hwf0) as [c0 Hc0].
  destruct (Hev pos c0 Hc0) as [Hsame | [_ Hempty]].
  - congruence.
  - rewrite Hempty in Hc. by simplify_eq.
Qed.

(** A turn keeps the logs in agreement with the grid. *)
Lemma rover_behavior_logs_agree p0 f i direction f' :
  wf_planet p0 → fleet_inv p0 f → logs_agree p0 f →
  (i < length (rovers f))%nat → cardinal direction →
  rover_behavior f i direction = Ok f' → logs_agree p0 f'.
Proof.
  intros Hwf0 (Hwf & Hrs & _ & _ & Hev) (Hnd & Hempty & HoW & HoM)
    Hi Hdir Hturn.
  destruct (lookup_lt_is_Some_2 _ _ Hi) as [r Hr].
  destruct (decide (state r = LOST)) as [Hlost | Hlost].
  { rewrite (rover_behavior_lost f i direction r Hr Hlost) in Hturn.
    injection Hturn as <-. by split_and!. }
  pose proof (Forall_lookup_1 _ _ _ _ Hrs Hr) as (Hkeys & _).
  destruct (rover_behavior_logs f i direction r f' Hwf Hkeys Hr Hlost Hdir
              Hturn)
    as [(Hp & Hall & HW & HM) | (c & Hres & Hc & Hp & Hall & HW & HM)];
    unfold logs_agree; rewrite Hp, Hall, HW, HM.
  - by split_and!.
  - pose proof (cells_evolve_cleared _ _ _ Hwf Hc Hres) as Hev1.
    pose proof (cells_evolve_origin _ _ _ _ Hwf0 Hev Hc Hres) as Hc0.
    assert (wrap (planet f) = wrap p0) as Hwrap.
    { destruct Hev as (Hw & Hh & _). unfold wrap. by rewrite Hw, Hh. }
    split_and!.
    + rewrite fmap_cons. apply NoDup_cons. split; [| done].
      intros (pos & Heq & Hpos)%list_elem_of_fmap.
      rewrite Forall_forall in Hempty. specialize (Hempty pos Hpos).
      rewrite <- (get_cell_wrap (planet f) pos), Hwrap, <- Heq, <- Hwrap,
        get_cell_wrap, Hc in Hempty by done.
      by simplify_eq.
    + apply Forall_cons. split; [by apply get_cell_cleared_eq |].
      eapply Forall_impl; [exact Hempty |]. intros pos Hpos. simpl in Hpos.
      destruct Hev1 as (_ & _ & Hev1).
      by destruct (Hev1 pos EMPTY Hpos) as [? | [? _]].
    + apply Forall_app. split; [| done].
      destruct (decide (c = WATER)) as [-> | _];
        [by repeat constructor | constructor].
    + apply Forall_app. split; [| done].
      destruct (decide (c = MINERAL)) as [-> | _];
        [by repeat constructor | constructor].
Qed.

(** X14.  The logs of a fleet agree with the grid.  After any turns of a
    fleet built on a well-formed planet: no cell of the grid is logged
    twice, by one rover or by two; every logged position is an Empty cell
    now; and every position in a Water log held Water when the fleet was
    built, every position in a Mineral log held Mineral. *)
Theorem fleet_logs_agree_with_grid
    (p : Planet) (num_rovers distance : Z) (turns : list (nat * string)) :
  wf_planet p → 0 < num_rovers →
  Forall (valid_turn (Z.to_nat num_rovers)) turns →
  ∃ f0 f,
    Fleet_init p num_rovers distance = Ok f0 ∧ run_turns f0 turns = Ok f ∧
    NoDup (wrap p <$> all_logged (rovers f)) ∧
    Forall (λ pos, get_cell (planet f) pos = Ok EMPTY)
      (all_logged (rovers f)) ∧
    Forall (λ pos, get_cell p pos = Ok WATER)
      (all_logged_kind "WATER" (rovers f)) ∧
    Forall (λ pos, get_cell p pos = Ok MINERAL)
      (all_logged_kind "MINERAL" (rovers f)).
Proof.
  intros Hwf Hn Hturns.
  destruct (Fleet_init_inv p num_rovers distance Hwf Hn)
    as (f0 & Hinit & Hinv & Hlen).
  rewrite <- Hlen in Hturns.
  destruct (run_turns_preserves (logs_agree p) p f0 turns)
    as (f & Hrun & _ & Hlogs); try done.
  - intros f i d f' Hinv' HP Hi Hd Hturn.
    by apply (rover_behavior_logs_agree p f i d f').
  - unfold logs_agree.
    destruct (Fleet_init_logs_empty _ _ _ _ "WATER" Hinit) as [-> ->].
    destruct (Fleet_init_logs_empty _ _ _ _ "MINERAL" Hinit) as [_ ->].
    split_and!; constructor.
  - by exists f0, f.
Qed.

Lemma fleet_logs_agree_with_grid_witness :
  wf_planet (planet_2x1 MINERAL WATER) ∧ 0 < 2 ∧
  Forall (valid_turn (Z.to_nat 2))
    [(0, "N"); (1, "N"); (0, "S"); (1, "S")]%nat ∧
  ∃ f0 f,
    Fleet_init (planet_2x1 MINERAL WATER) 2 0 = Ok f0 ∧
    run_turns f0 [(0, "N"); (1, "N"); (0, "S"); (1, "S")]%nat = Ok f ∧
    NoDup (wrap (planet_2x1 MINERAL WATER) <$> all_logged (rovers f)) ∧
    Forall (λ pos, get_cell (planet f) pos = Ok EMPTY)
      (all_logged (rovers f)) ∧
    Forall (λ pos, get_cell (planet_2x1 MINERAL WATER) pos = Ok WATER)
      (all_logged_kind "WATER" (rovers f)) ∧
    Forall (λ pos, get_cell (planet_2x1 MINERAL WATER) pos = Ok MINERAL)
      (all_logged_kind "MINERAL" (rovers f)).
Proof.
  assert (Forall (valid_turn (Z.to_nat 2))
            [(0, "N"); (1, "N"); (0, "S"); (1, "S")]%nat) as Hturns
    by repeat constructor.
  split; [apply wf_planet_2x1 |]. split; [lia |]. split; [exact Hturns |].
  apply (fleet_logs_agree_with_grid (planet_2x1 MINERAL WATER) 2 0
           [(0, "N"); (1, "N"); (0, "S"); (1, "S")]%nat
           (wf_planet_2x1 _ _) ltac:(lia) Hturns).
Defined.

(** The logs of the run of the witness above. *)
Example fleet_logs_example :
  ∃ f0 f,
    Fleet_init (planet_2x1 MINERAL WATER) 2 0 = Ok f0 ∧
    run_turns f0 [(0, "N"); (1, "N"); (0, "S"); (1, "S")]%nat = Ok f ∧
    all_logged_kind "WATER" (rovers f) = [(1, 0)] ∧
    all_logged_kind "MINERAL" (rovers f) = [(0, 0)] ∧
    grid (planet f) = [[EMPTY]; [EMPTY]].
Proof.
  eexists _, _. split; [reflexivity |].
  split; [vm_compute; reflexivity |]. split_and!; reflexivity.
Qed.

(** ** The fleets sent to one planet *)





(** Two fleets of two rovers on a Mineral and a Water cell.  The first
    fleet lands one rover on each cell and gathers both on its second
    tick; the second fleet finds the grid empty. *)
Example explorations_example :
  Water_gathered <$>
    default [] (match explorations (λ a b, Ok (a `div` b)) 1
                        (0.5, 0.5, 0)%float (planet_2x1 MINERAL WATER) 2 1
                        [[["W"; "W"]; ["N"; "N"]];
                         [["W"; "N"]; ["N"; "N"]]]
                with Ok (_, rows) => Some rows | Raise _ => None end) =
    [1; 0] ∧
  Mineral_gathered <$>
    default [] (match explorations (λ a b, Ok (a `div` b)) 1
                        (0.5, 0.5, 0)%float (planet_2x1 MINERAL WATER) 2 1
                        [[["W"; "W"]; ["N"; "N"]];
                         [["W"; "N"]; ["N"; "N"]]]
                with Ok (_, rows) => Some rows | Raise _ => None end) =
    [1; 0].
Proof. split; vm_compute; reflexivity. Qed.
